(** * gestor_de_tareas: a shallow embedding of [app.py]

    The program keeps a process-wide list of task dictionaries ([tareas]),
    the last id handed out ([ultimo_id]) and mirrors the list to the JSON
    file [RUTA_DATOS].  Every dictionary that enters [tareas] is built by
    [cargar_tareas] or by [agregar_tarea] with the same seven keys and
    with values of fixed Python types, so a task is a record here.

    Python [int] is [Z].  A Python [str] is the [string] of its UTF-8
    bytes: equality is the same, and the byte-wise lexicographic order is
    the code point order that [sorted] uses.  Strings are well-formed
    text (no lone surrogates), as form values and file contents that
    [json.dump] can write are.

    The [json] library is taken at the level of the parsed document:
    [json.dump] followed by [json.load] gives back the document that was
    written.  The outcome of a write to the file is a parameter of the
    store operations. *)

From Stdlib Require Import ZArith Lia DecimalString.
From stdpp Require Import gmap strings list sorting.

Local Open Scope Z_scope.
Local Open Scope string_scope.
Local Open Scope list_scope.

(** ** Tasks *)

Record tarea := Tarea {
  id : Z;
  texto : string;
  completada : bool;
  motivo : string;
  inhabilitada : bool;
  lista : string;
  tema : string
}.

Global Instance tarea_eq_dec : EqDecision tarea.
Proof. solve_decision. Defined.

(** [tarea["completada"] = c; tarea["motivo"] = m] *)
Definition con_estado (c : bool) (m : string) (t : tarea) : tarea :=
  Tarea (id t) (texto t) c m (inhabilitada t) (lista t) (tema t).

(** [tarea["inhabilitada"] = True] *)
Definition con_inhabilitada (b : bool) (t : tarea) : tarea :=
  Tarea (id t) (texto t) (completada t) (motivo t) b (lista t) (tema t).

(** [tarea["lista"] = n] *)
Definition con_lista (n : string) (t : tarea) : tarea :=
  Tarea (id t) (texto t) (completada t) (motivo t) (inhabilitada t) n (tema t).

(** [tarea["tema"] = n] *)
Definition con_tema (n : string) (t : tarea) : tarea :=
  Tarea (id t) (texto t) (completada t) (motivo t) (inhabilitada t) (lista t) n.

(** Python's [s or d] on strings: the empty string is falsy. *)
Definition str_or (s d : string) : string :=
  if decide (s = "") then d else s.

(** [t.get("lista", "general") or "general"] *)
Definition lista_de (t : tarea) : string := str_or (lista t) "general".

(** ** JSON documents and the data file *)

(** What [json.load] returns.  Objects are kept as the list of their
    members in file order ([json.load] lets a later duplicate key win);
    numbers with a fraction or an exponent are outside the embedding,
    [guardar_tareas] never writes one. *)
#[local] Unset Elimination Schemes.
Inductive json :=
  | JNull
  | JBool (b : bool)
  | JInt (n : Z)
  | JStr (s : string)
  | JArr (l : list json)
  | JObj (campos : list (string * json)).
#[local] Set Elimination Schemes.

(** The file [RUTA_DATOS]: absent, present but rejected by [open] or
    [json.load] ([OSError], [JSONDecodeError]), or holding a document. *)
Inductive archivo :=
  | NoExiste
  | Ilegible
  | Contenido (j : json).

Inductive excepcion := TypeError | AttributeError | ValueError.

(** Outcome of a Python expression: a value, an uncaught exception, or a
    behaviour of the runtime that the embedding does not cover. *)
Inductive resultado (A : Type) :=
  | Valor (a : A)
  | Excepcion (e : excepcion)
  | FueraDeModelo.
Arguments Valor {A} a.
Arguments Excepcion {A} e.
Arguments FueraDeModelo {A}.

Definition ligar {A B} (r : resultado A) (k : A -> resultado B) : resultado B :=
  match r with
  | Valor a => k a
  | Excepcion e => Excepcion e
  | FueraDeModelo => FueraDeModelo
  end.

Notation "x <~ r ;; k" := (ligar r (fun x => k))
  (at level 100, r at next level, right associativity).

(** [d.get(k, defecto)] on a parsed object. *)
Fixpoint dict_get (campos : list (string * json)) (k : string) (defecto : json) : json :=
  match campos with
  | [] => defecto
  | (k', v) :: resto =>
      if decide (k' = k) then dict_get resto k v else dict_get resto k defecto
  end.

(** [int(v)]: a [bool] is an [int]; [None], lists and dicts raise
    [TypeError]; the numeral grammar of [int(str)] is not embedded. *)
Definition py_int (v : json) : resultado Z :=
  match v with
  | JInt n => Valor n
  | JBool b => Valor (if b then 1 else 0)
  | JStr _ => FueraDeModelo
  | JNull | JArr _ | JObj _ => Excepcion TypeError
  end.

(** [str(v)]; the [repr] of containers is not embedded. *)
Definition py_str (v : json) : resultado string :=
  match v with
  | JStr s => Valor s
  | JInt n => Valor (NilZero.string_of_int (Z.to_int n))
  | JBool b => Valor (if b then "True" else "False")
  | JNull => Valor "None"
  | JArr _ | JObj _ => FueraDeModelo
  end.

(** [bool(v)] *)
Definition py_bool (v : json) : bool :=
  match v with
  | JNull => false
  | JBool b => b
  | JInt n => negb (n =? 0)%Z
  | JStr s => negb (bool_decide (s = ""))
  | JArr l => negb (bool_decide (length l = 0%nat))
  | JObj c => negb (bool_decide (length c = 0%nat))
  end.

(** One element of the comprehension in [cargar_tareas]; the dictionary
    display evaluates its values top to bottom. *)
Definition cargar_tarea (t : json) : resultado tarea :=
  match t with
  | JObj c =>
      i <~ py_int (dict_get c "id" (JInt 0)) ;;
      tx <~ py_str (dict_get c "texto" (JStr "")) ;;
      let co := py_bool (dict_get c "completada" (JBool false)) in
      mo <~ py_str (dict_get c "motivo" (JStr "")) ;;
      let inh := py_bool (dict_get c "inhabilitada" (JBool false)) in
      li <~ py_str (dict_get c "lista" (JStr "general")) ;;
      te <~ py_str (dict_get c "tema" (JStr "")) ;;
      Valor (Tarea i tx co mo inh (str_or li "general") te)
  | _ => Excepcion AttributeError
  end.

Fixpoint cargar_lista (l : list json) : resultado (list tarea) :=
  match l with
  | [] => Valor []
  | t :: resto =>
      x <~ cargar_tarea t ;;
      xs <~ cargar_lista resto ;;
      Valor (x :: xs)
  end.

(** [max((t["id"] for t in tareas), default=0)] *)
Definition max_id (ts : list tarea) : Z :=
  match ts with
  | [] => 0
  | t :: resto => foldl Z.max (id t) (id <$> resto)
  end.

(** [json.dump(tareas, f, ...)]: the document written for the list. *)
Definition json_de_tarea (t : tarea) : json :=
  JObj [ ("id", JInt (id t));
         ("texto", JStr (texto t));
         ("completada", JBool (completada t));
         ("motivo", JStr (motivo t));
         ("inhabilitada", JBool (inhabilitada t));
         ("lista", JStr (lista t));
         ("tema", JStr (tema t)) ].

Definition json_de_tareas (ts : list tarea) : json := JArr (json_de_tarea <$> ts).

(** ** The store *)

(** The module globals [tareas] and [ultimo_id], and the data file. *)
Record estado := Estado {
  tareas : list tarea;
  ultimo_id : Z;
  disco : archivo
}.

Definition con_tareas (ts : list tarea) (st : estado) : estado :=
  Estado ts (ultimo_id st) (disco st).

(** ** Whitespace trimming

    [str.strip()] removes from both ends the characters for which
    [str.isspace] holds.  They are listed by their UTF-8 encodings;
    in well-formed UTF-8 a leading or trailing occurrence of one of
    these byte sequences is an occurrence of the character. *)

Definition bytes (l : list Z) : string :=
  foldr (fun n s => String (Ascii.ascii_of_N (Z.to_N n)) s) "" l.

Definition espacios : list string :=
  (* U+0009..U+000D, U+001C..U+001F, U+0020 *)
  ((fun n => bytes [n]) <$> [9; 10; 11; 12; 13; 28; 29; 30; 31; 32]) ++
  (* U+0085, U+00A0, U+1680 *)
  [bytes [194; 133]; bytes [194; 160]; bytes [225; 154; 128]] ++
  (* U+2000..U+200A *)
  ((fun n => bytes [226; 128; n]) <$>
     [128; 129; 130; 131; 132; 133; 134; 135; 136; 137; 138]) ++
  (* U+2028, U+2029, U+202F, U+205F, U+3000 *)
  [bytes [226; 128; 168]; bytes [226; 128; 169]; bytes [226; 128; 175];
   bytes [226; 129; 159]; bytes [227; 128; 128]].

(** [Some r] when [s = p ++ r]. *)
Fixpoint quitar_prefijo (p s : string) : option string :=
  match p, s with
  | EmptyString, _ => Some s
  | String a p', String b s' => if decide (a = b) then quitar_prefijo p' s' else None
  | String _ _, EmptyString => None
  end.

(** Drops one leading token of [toks], if [s] starts with one. *)
Fixpoint quitar_uno (toks : list string) (s : string) : option string :=
  match toks with
  | [] => None
  | p :: resto =>
      match quitar_prefijo p s with
      | Some r => Some r
      | None => quitar_uno resto s
      end
  end.

Fixpoint quitar_todos (n : nat) (toks : list string) (s : string) : string :=
  match n with
  | O => s
  | S n' =>
      match quitar_uno toks s with
      | Some r => quitar_todos n' toks r
      | None => s
      end
  end.

Definition rev_str (s : string) : string := String.rev s.

Definition lstrip (s : string) : string :=
  quitar_todos (String.length s) espacios s.

Definition rstrip (s : string) : string :=
  rev_str (quitar_todos (String.length s) (rev_str <$> espacios) (rev_str s)).

Definition strip (s : string) : string := rstrip (lstrip s).

(** ** Loading *)

(** [cargar_tareas]: a missing or unreadable file gives the empty store;
    otherwise the comprehension runs over the parsed document.  Iterating
    a dict or a str yields str elements, on which [t.get] raises; a
    number, a bool or [None] is not iterable. *)
Definition cargar_tareas (st : estado) : resultado estado :=
  match disco st with
  | NoExiste => Valor (Estado [] 0 (disco st))
  | Ilegible => Valor (Estado [] 0 (disco st))
  | Contenido datos =>
      ts <~ match datos with
            | JArr l => cargar_lista l
            | JObj [] => Valor []
            | JObj (_ :: _) => Excepcion AttributeError
            | JStr EmptyString => Valor []
            | JStr (String _ _) => Excepcion AttributeError
            | JNull | JBool _ | JInt _ => Excepcion TypeError
            end ;;
      Valor (Estado ts (max_id ts) (disco st))
  end.

(** ** Queries *)

(** [sorted(nombres)] on a set of strings. *)
Definition sorted (nombres : gset string) : list string :=
  merge_sort String.le (elements nombres).

Definition obtener_listas (st : estado) : list string :=
  let nombres : gset string := list_to_set (lista_de <$> tareas st) in
  if decide (nombres = ∅) then ["general"]
  else sorted (nombres ∪ {["general"]}).

(** [[t for t in tareas if (t.get("lista", "general") or "general") == nombre]] *)
Definition tareas_de_lista (nombre : string) (ts : list tarea) : list tarea :=
  filter (fun t => lista_de t = nombre) ts.

(** [next((t.get("tema", "") for t in ts if t.get("tema")), "")] *)
Fixpoint primer_tema (ts : list tarea) : string :=
  match ts with
  | [] => ""
  | t :: resto => if decide (tema t = "") then primer_tema resto else tema t
  end.

(** One dictionary of the summary. *)
Record resumen := Resumen {
  r_nombre : string;
  r_total : nat;
  r_activas : nat;
  r_completadas : nat;
  r_tema : string
}.

Definition resumen_de (ts : list tarea) (nombre : string) : resumen :=
  let tareas_lista := tareas_de_lista nombre ts in
  Resumen nombre
    (length tareas_lista)
    (length (filter (fun t => inhabilitada t = false) tareas_lista))
    (length (filter (fun t => completada t = true) tareas_lista))
    (primer_tema tareas_lista).

Definition construir_resumen_listas (st : estado) : list resumen :=
  resumen_de (tareas st) <$> obtener_listas st.

Definition obtener_tema_lista (nombre_lista : string) (st : estado) : string :=
  primer_tema (tareas_de_lista nombre_lista (tareas st)).

(** ** Requests and responses *)

Record request := Request {
  form : gmap string string;
  args : gmap string string
}.

(** [m.get(k, d)] *)
Definition get (m : gmap string string) (k d : string) : string :=
  default d (m !! k).

Inductive respuesta :=
  | Redirect (endpoint : string) (lista_param : option string)
  | RenderListas (listas : list resumen)
  | RenderIndex (tareas_vista : list tarea) (lista_actual : string)
                (listas : list string) (tema_lista : string).

(** ** Mutations *)

(** The loop of [completar_tarea]: [Some ts] when it returns [True]
    having changed the list into [ts], [None] when it returns [False]. *)
Fixpoint completar_bucle (tarea_id : Z) (ts : list tarea) : option (list tarea) :=
  match ts with
  | [] => None
  | t :: resto =>
      if decide (id t = tarea_id) then
        if inhabilitada t then None
        else Some (con_estado true "" t :: resto)
      else (t ::.) <$> completar_bucle tarea_id resto
  end.

Fixpoint incompleta_bucle (tarea_id : Z) (m : string) (ts : list tarea)
  : option (list tarea) :=
  match ts with
  | [] => None
  | t :: resto =>
      if decide (id t = tarea_id) then
        if inhabilitada t then None
        else Some (con_estado false m t :: resto)
      else (t ::.) <$> incompleta_bucle tarea_id m resto
  end.

Fixpoint borrar_bucle (tarea_id : Z) (ts : list tarea) : option (list tarea) :=
  match ts with
  | [] => None
  | t :: resto =>
      if decide (id t = tarea_id) then Some (con_inhabilitada true t :: resto)
      else (t ::.) <$> borrar_bucle tarea_id resto
  end.

Section Almacen.

(** What [RUTA_DATOS] holds after [open(RUTA_DATOS, "w")] and
    [json.dump] ran on it: the new document when the write goes
    through, and whatever the failed write left behind on [OSError],
    which [guardar_tareas] swallows. *)
Variable escribir : archivo -> json -> archivo.

Definition guardar_tareas (st : estado) : estado :=
  Estado (tareas st) (ultimo_id st)
         (escribir (disco st) (json_de_tareas (tareas st))).

Definition agregar_tarea (texto lista : string) (st : estado) : tarea * estado :=
  let nuevo_id := ultimo_id st + 1 in
  let lista_normalizada := str_or lista "general" in
  let t := Tarea nuevo_id texto false "" false lista_normalizada "" in
  (t, guardar_tareas (Estado (tareas st ++ [t]) nuevo_id (disco st))).

Definition completar_tarea (tarea_id : Z) (st : estado) : bool * estado :=
  match completar_bucle tarea_id (tareas st) with
  | Some ts => (true, guardar_tareas (con_tareas ts st))
  | None => (false, st)
  end.

Definition marcar_incompleta (tarea_id : Z) (m : string) (st : estado)
  : bool * estado :=
  match incompleta_bucle tarea_id m (tareas st) with
  | Some ts => (true, guardar_tareas (con_tareas ts st))
  | None => (false, st)
  end.

Definition borrar_tarea (tarea_id : Z) (st : estado) : bool * estado :=
  match borrar_bucle tarea_id (tareas st) with
  | Some ts => (true, guardar_tareas (con_tareas ts st))
  | None => (false, st)
  end.

(** *** Route handlers of [create_app] *)

Definition index (st : estado) : respuesta * estado :=
  (RenderListas (construir_resumen_listas st), st).

Definition vista_listas (st : estado) : respuesta * estado :=
  (RenderListas (construir_resumen_listas st), st).

Definition vista_tareas (req : request) (st : estado) : respuesta * estado :=
  let lista_actual := get (args req) "lista" "general" in
  (RenderIndex (tareas_de_lista lista_actual (tareas st)) lista_actual
               (obtener_listas st) (obtener_tema_lista lista_actual st), st).

Definition ruta_agregar_tarea (req : request) (st : estado) : respuesta * estado :=
  let texto := strip (get (form req) "texto" "") in
  let lista := get (args req) "lista" "general" in
  let st' := if decide (texto = "") then st
             else snd (agregar_tarea texto lista st) in
  (Redirect "vista_tareas" (Some lista), st').

Definition ruta_completar_tarea (tarea_id : Z) (req : request) (st : estado)
  : respuesta * estado :=
  let lista := get (args req) "lista" "general" in
  (Redirect "vista_tareas" (Some lista), snd (completar_tarea tarea_id st)).

Definition ruta_marcar_incompleta (tarea_id : Z) (req : request) (st : estado)
  : respuesta * estado :=
  let lista := get (args req) "lista" "general" in
  let m := strip (get (form req) "motivo" "") in
  (Redirect "vista_tareas" (Some lista), snd (marcar_incompleta tarea_id m st)).

Definition ruta_borrar_tarea (tarea_id : Z) (req : request) (st : estado)
  : respuesta * estado :=
  let lista := get (args req) "lista" "general" in
  (Redirect "vista_tareas" (Some lista), snd (borrar_tarea tarea_id st)).

Definition crear_lista (req : request) (st : estado) : respuesta * estado :=
  let nombre := str_or (strip (get (form req) "nombre" "")) "general" in
  (Redirect "vista_tareas" (Some nombre), st).

Definition renombrar_lista (lista_nombre : string) (req : request) (st : estado)
  : respuesta * estado :=
  let nuevo_nombre := strip (get (form req) "nuevo_nombre" "") in
  if decide (nuevo_nombre = "" \/ nuevo_nombre = lista_nombre) then
    (Redirect "vista_listas" None, st)
  else
    let ts := (fun t => if decide (lista_de t = lista_nombre)
                        then con_lista nuevo_nombre t else t) <$> tareas st in
    (Redirect "vista_listas" None, guardar_tareas (con_tareas ts st)).

Definition eliminar_lista (lista_nombre : string) (st : estado)
  : respuesta * estado :=
  if decide (lista_nombre = "general") then (Redirect "vista_listas" None, st)
  else
    let ts := filter (fun t => lista_de t <> lista_nombre) (tareas st) in
    (Redirect "vista_listas" None, guardar_tareas (con_tareas ts st)).

Definition actualizar_tema_lista (lista_nombre : string) (req : request)
  (st : estado) : respuesta * estado :=
  let nuevo_tema := strip (get (form req) "tema" "") in
  let ts := (fun t => if decide (lista_de t = lista_nombre)
                      then con_tema nuevo_tema t else t) <$> tareas st in
  (Redirect "vista_listas" None, guardar_tareas (con_tareas ts st)).

(** A run of [agregar_tarea] calls, in order; returns the created tasks. *)
Fixpoint agregar_varias (entradas : list (string * string)) (st : estado)
  : list tarea * estado :=
  match entradas with
  | [] => ([], st)
  | (texto, lista) :: resto =>
      let '(t, st1) := agregar_tarea texto lista st in
      let '(ts, st2) := agregar_varias resto st1 in
      (t :: ts, st2)
  end.

End Almacen.

(** A disk on which every write goes through. *)
Definition disco_fiable (_ : archivo) (j : json) : archivo := Contenido j.

(** A disk that refuses every [open(..., "w")]. *)
Definition disco_protegido (a : archivo) (_ : json) : archivo := a.

(** ** The application *)

(** The view function a request is routed to, with the variables of its
    URL rule, as registered in [create_app]; matching the URL against
    the rules is Flask's part. *)
Inductive ruta :=
  | RIndex
  | RVistaListas
  | RVistaTareas
  | RAgregar
  | RCompletar (tarea_id : Z)
  | RIncompleta (tarea_id : Z)
  | RBorrar (tarea_id : Z)
  | RCrearLista
  | RRenombrar (lista_nombre : string)
  | REliminar (lista_nombre : string)
  | RTema (lista_nombre : string).

Section Aplicacion.

Variable escribir : archivo -> json -> archivo.

Definition atender (r : ruta) (req : request) (st : estado) : respuesta * estado :=
  match r with
  | RIndex => index st
  | RVistaListas => vista_listas st
  | RVistaTareas => vista_tareas req st
  | RAgregar => ruta_agregar_tarea escribir req st
  | RCompletar tarea_id => ruta_completar_tarea escribir tarea_id req st
  | RIncompleta tarea_id => ruta_marcar_incompleta escribir tarea_id req st
  | RBorrar tarea_id => ruta_borrar_tarea escribir tarea_id req st
  | RCrearLista => crear_lista req st
  | RRenombrar lista_nombre => renombrar_lista escribir lista_nombre req st
  | REliminar lista_nombre => eliminar_lista escribir lista_nombre st
  | RTema lista_nombre => actualizar_tema_lista escribir lista_nombre req st
  end.

(** The store after a run of requests, one at a time. *)
Fixpoint servir (peticiones : list (ruta * request)) (st : estado) : estado :=
  match peticiones with
  | [] => st
  | (r, req) :: resto => servir resto (snd (atender r req st))
  end.

End Aplicacion.

(** [create_app] up to the registration of the routes: the module starts
    with [tareas = []] and [ultimo_id = 0] and then loads the file. *)
Definition create_app (d : archivo) : resultado estado :=
  cargar_tareas (Estado [] 0 d).

(** ** Specification vocabulary *)

(** The three loops share one shape: walk the list, stop at the first
    task carrying the id, and either give up or rewrite that task. *)
Fixpoint primera (permitida : tarea -> bool) (f : tarea -> tarea)
  (i : Z) (ts : list tarea) : option (list tarea) :=
  match ts with
  | [] => None
  | t :: resto =>
      if decide (id t = i) then
        if permitida t then Some (f t :: resto) else None
      else (t ::.) <$> primera permitida f i resto
  end.

(** [t'] differs from [t] at most in [completada] and [motivo]. *)
Definition mismo_salvo_estado (t t' : tarea) : Prop :=
  id t' = id t /\ texto t' = texto t /\ inhabilitada t' = inhabilitada t /\
  lista t' = lista t /\ tema t' = tema t.

(** [t'] differs from [t] at most in [inhabilitada]. *)
Definition mismo_salvo_inhabilitada (t t' : tarea) : Prop :=
  id t' = id t /\ texto t' = texto t /\ completada t' = completada t /\
  motivo t' = motivo t /\ lista t' = lista t /\ tema t' = tema t.

(** [t'] differs from [t] at most in [lista]. *)
Definition mismo_salvo_lista (t t' : tarea) : Prop :=
  id t' = id t /\ texto t' = texto t /\ completada t' = completada t /\
  motivo t' = motivo t /\ inhabilitada t' = inhabilitada t /\ tema t' = tema t.

(** [ts'] is [ts] with at most one task replaced, in place, by an
    [R]-related one; the replaced task carries the id [i]. *)
Definition cambia_a_lo_sumo_una (R : tarea -> tarea -> Prop) (i : Z)
  (ts ts' : list tarea) : Prop :=
  ts' = ts \/
  exists l1 t t' l2,
    ts = l1 ++ t :: l2 /\ ts' = l1 ++ t' :: l2 /\ id t = i /\ R t t'.

(** The invariant of every store the program builds from a missing file. *)
Definition bien_formado (st : estado) : Prop :=
  NoDup (id <$> tareas st) /\
  Forall (fun t => id t <= ultimo_id st) (tareas st) /\
  Forall (fun t => lista t <> "") (tareas st).

(** [te] is the first non-empty [tema] among the tasks of [nombre], in
    storage order, or [""] when they all have an empty one. *)
Definition es_primer_tema (nombre : string) (ts : list tarea) (te : string) : Prop :=
  (te = "" /\ Forall (fun t => lista_de t = nombre -> tema t = "") ts) \/
  (te <> "" /\
   exists l1 t l2,
     ts = l1 ++ t :: l2 /\ lista_de t = nombre /\ tema t = te /\
     Forall (fun x => lista_de x = nombre -> tema x = "") l1).

(** [t'] is [t] at a later time: the same [id] and [texto], and still
    disabled if [t] was. *)
Definition desciende (t t' : tarea) : Prop :=
  id t' = id t /\ texto t' = texto t /\
  (inhabilitada t = true -> inhabilitada t' = true).

(** The keys that [cargar_tareas] reads from a task object. *)
Definition claves : list string :=
  ["id"; "texto"; "completada"; "motivo"; "inhabilitada"; "lista"; "tema"].

(** ** Stores used in the concrete runs *)

Definition st_vacio : estado := Estado [] 0 NoExiste.

Definition st_ej : estado :=
  Estado [ Tarea 1 "comprar leche" false "" false "general" "";
           Tarea 2 "informe" false "" true "work" "";
           Tarea 3 "llamar" true "" false "work" "Q1" ] 3 NoExiste.

(** * Properties *)

(** ** The loops *)

Lemma completar_bucle_primera i ts :
  completar_bucle i ts = primera (fun t => negb (inhabilitada t)) (con_estado true "") i ts.
Proof.
  induction ts as [|t ts IH]; simpl; [done|].
  case_decide; [by destruct (inhabilitada t)|by rewrite IH].
Qed.

Lemma incompleta_bucle_primera i m ts :
  incompleta_bucle i m ts = primera (fun t => negb (inhabilitada t)) (con_estado false m) i ts.
Proof.
  induction ts as [|t ts IH]; simpl; [done|].
  case_decide; [by destruct (inhabilitada t)|by rewrite IH].
Qed.

Lemma borrar_bucle_primera i ts :
  borrar_bucle i ts = primera (fun _ => true) (con_inhabilitada true) i ts.
Proof.
  induction ts as [|t ts IH]; simpl; [done|].
  case_decide; [done|by rewrite IH].
Qed.

Section Primera.
Context (permitida : tarea -> bool) (f : tarea -> tarea) (i : Z).

(** Tasks with another id in front of the target are skipped. *)
Lemma primera_app l1 l2 :
  Forall (fun x => id x <> i) l1 ->
  primera permitida f i (l1 ++ l2) = (l1 ++.) <$> primera permitida f i l2.
Proof.
  induction 1 as [|x l1 Hx _ IH]; simpl.
  - by destruct (primera _ _ _ l2).
  - rewrite decide_False by done. rewrite IH.
    by destruct (primera _ _ _ l2).
Qed.

Lemma primera_Some ts ts' :
  primera permitida f i ts = Some ts' ->
  exists l1 t l2,
    ts = l1 ++ t :: l2 /\ ts' = l1 ++ f t :: l2 /\
    Forall (fun x => id x <> i) l1 /\ id t = i /\ permitida t = true.
Proof.
  revert ts'. induction ts as [|t ts IH]; intros ts'; simpl; [done|].
  case_decide as Hid.
  - destruct (permitida t) eqn:Hp; [|done]. intros [= <-].
    by exists [], t, ts.
  - destruct (primera _ _ _ ts) as [r|] eqn:Hr; [|done]. intros [= <-].
    destruct (IH r eq_refl) as (l1 & x & l2 & -> & -> & Hl1 & Hx & Hp).
    exists (t :: l1), x, l2. repeat split; auto.
Qed.

Lemma primera_None ts :
  primera permitida f i ts = None ->
  Forall (fun x => id x <> i) ts \/
  exists l1 t l2,
    ts = l1 ++ t :: l2 /\ Forall (fun x => id x <> i) l1 /\
    id t = i /\ permitida t = false.
Proof.
  induction ts as [|t ts IH]; simpl; [by left|].
  case_decide as Hid.
  - destruct (permitida t) eqn:Hp; [done|]. intros _. right.
    by exists [], t, ts.
  - destruct (primera _ _ _ ts) as [r|] eqn:Hr; [done|]. intros _.
    destruct (IH eq_refl) as [Hall|(l1 & x & l2 & -> & Hl1 & Hx & Hp)].
    + left. by constructor.
    + right. exists (t :: l1), x, l2. repeat split; auto.
Qed.
End Primera.

(** In a list without repeated ids, a member is the first task with its id. *)
Lemma primera_con_id (ts : list tarea) (t : tarea) :
  NoDup (id <$> ts) -> t ∈ ts ->
  exists l1 l2, ts = l1 ++ t :: l2 /\ Forall (fun x => id x <> id t) l1.
Proof.
  intros Hnd Hin. apply list_elem_of_split in Hin as (l1 & l2 & ->).
  exists l1, l2. split; [done|].
  rewrite fmap_app, fmap_cons in Hnd.
  apply NoDup_app in Hnd as (_ & Hdisj & _).
  apply Forall_forall. intros x Hx Heq.
  apply (Hdisj (id x)); [by apply list_elem_of_fmap_2|].
  rewrite Heq. left.
Qed.

(** ** Frame of the single-task mutations *)

Lemma cambia_Forall2 (R : tarea -> tarea -> Prop) i ts ts' :
  (forall t, R t t) ->
  cambia_a_lo_sumo_una R i ts ts' ->
  Forall2 (fun t t' => R t t' /\ (id t <> i -> t' = t)) ts ts'.
Proof.
  intros Hrefl [->|(l1 & t & t' & l2 & -> & -> & Hid & HR)].
  - apply Forall2_same_length_lookup_2; [done|].
    intros k x y Hx Hy. rewrite Hx in Hy. injection Hy as <-. auto.
  - apply Forall2_app; [|constructor].
    + apply Forall2_same_length_lookup_2; [done|].
      intros k x y Hx Hy. rewrite Hx in Hy. injection Hy as <-. auto.
    + split; [done|]. intros Hne. by destruct Hne.
    + apply Forall2_same_length_lookup_2; [done|].
      intros k x y Hx Hy. rewrite Hx in Hy. injection Hy as <-. auto.
Qed.

Lemma primera_cambia (R : tarea -> tarea -> Prop) permitida f i ts ts' :
  (forall t, R t (f t)) ->
  primera permitida f i ts = Some ts' ->
  cambia_a_lo_sumo_una R i ts ts'.
Proof.
  intros HR Hp. apply primera_Some in Hp as (l1 & t & l2 & -> & -> & _ & Hid & _).
  right. exists l1, t, (f t), l2. auto.
Qed.

Lemma mismo_salvo_estado_refl t : mismo_salvo_estado t t.
Proof. by repeat split. Qed.

Lemma mismo_salvo_inhabilitada_refl t : mismo_salvo_inhabilitada t t.
Proof. by repeat split. Qed.

Lemma con_estado_marco c m t : mismo_salvo_estado t (con_estado c m t).
Proof. by repeat split. Qed.

Lemma con_inhabilitada_marco b t : mismo_salvo_inhabilitada t (con_inhabilitada b t).
Proof. by repeat split. Qed.

Section Marco.
Context (escribir : archivo -> json -> archivo).

Lemma completar_tarea_cambia i st :
  cambia_a_lo_sumo_una mismo_salvo_estado i
    (tareas st) (tareas (snd (completar_tarea escribir i st))) /\
  ultimo_id (snd (completar_tarea escribir i st)) = ultimo_id st.
Proof.
  unfold completar_tarea. rewrite completar_bucle_primera.
  destruct (primera _ _ _ _) as [ts'|] eqn:Hp; simpl; [|by split; [left|]].
  split; [|done]. eapply primera_cambia; [|done]. apply con_estado_marco.
Qed.

Lemma marcar_incompleta_cambia i m st :
  cambia_a_lo_sumo_una mismo_salvo_estado i
    (tareas st) (tareas (snd (marcar_incompleta escribir i m st))) /\
  ultimo_id (snd (marcar_incompleta escribir i m st)) = ultimo_id st.
Proof.
  unfold marcar_incompleta. rewrite incompleta_bucle_primera.
  destruct (primera _ _ _ _) as [ts'|] eqn:Hp; simpl; [|by split; [left|]].
  split; [|done]. eapply primera_cambia; [|done]. apply con_estado_marco.
Qed.

Lemma borrar_tarea_cambia i st :
  cambia_a_lo_sumo_una mismo_salvo_inhabilitada i
    (tareas st) (tareas (snd (borrar_tarea escribir i st))) /\
  ultimo_id (snd (borrar_tarea escribir i st)) = ultimo_id st.
Proof.
  unfold borrar_tarea. rewrite borrar_bucle_primera.
  destruct (primera _ _ _ _) as [ts'|] eqn:Hp; simpl; [|by split; [left|]].
  split; [|done]. eapply primera_cambia; [|done]. apply con_inhabilitada_marco.
Qed.

(** C9.  Each of [completar_tarea], [marcar_incompleta] and
    [borrar_tarea] returns a collection of the same length in the same
    order, in which at most one task was replaced; that task carries
    the id passed in.  Position by position, [completar_tarea] and
    [marcar_incompleta] keep [id], [texto], [inhabilitada], [lista]
    and [tema]; [borrar_tarea] keeps every field but [inhabilitada];
    a task with another id is left exactly as it was.  The id counter
    is not touched. *)
Theorem mutaciones_marco (i : Z) (m : string) (st : estado) :
  let marco R st' :=
    cambia_a_lo_sumo_una R i (tareas st) (tareas st') /\
    Forall2 (fun t t' => R t t' /\ (id t <> i -> t' = t)) (tareas st) (tareas st') /\
    length (tareas st') = length (tareas st) /\
    ultimo_id st' = ultimo_id st in
  marco mismo_salvo_estado (snd (completar_tarea escribir i st)) /\
  marco mismo_salvo_estado (snd (marcar_incompleta escribir i m st)) /\
  marco mismo_salvo_inhabilitada (snd (borrar_tarea escribir i st)).
Proof.
  assert (Hmarco : forall R st',
    (forall t, R t t) ->
    cambia_a_lo_sumo_una R i (tareas st) (tareas st') /\
      ultimo_id st' = ultimo_id st ->
    cambia_a_lo_sumo_una R i (tareas st) (tareas st') /\
    Forall2 (fun t t' => R t t' /\ (id t <> i -> t' = t)) (tareas st) (tareas st') /\
    length (tareas st') = length (tareas st) /\
    ultimo_id st' = ultimo_id st).
  { intros R st' Hrefl [Hc Hu].
    pose proof (cambia_Forall2 R i _ _ Hrefl Hc) as HF.
    repeat split; auto. symmetry. by eapply Forall2_length. }
  simpl. split; [|split].
  - apply Hmarco; [apply mismo_salvo_estado_refl|apply completar_tarea_cambia].
  - apply Hmarco; [apply mismo_salvo_estado_refl|apply marcar_incompleta_cambia].
  - apply Hmarco; [apply mismo_salvo_inhabilitada_refl|apply borrar_tarea_cambia].
Qed.
End Marco.

(** ** Disabled tasks, and completing then reopening *)

Lemma con_inhabilitada_id t :
  inhabilitada t = true -> con_inhabilitada true t = t.
Proof. destruct t; simpl; by intros ->. Qed.

Section Tareas.
Context (escribir : archivo -> json -> archivo).

(** On a list that starts, after tasks with other ids, with the target. *)
Lemma primera_en permitida f (l1 l2 : list tarea) t :
  Forall (fun x => id x <> id t) l1 ->
  primera permitida f (id t) (l1 ++ t :: l2) =
    if permitida t then Some (l1 ++ f t :: l2) else None.
Proof.
  intros Hl1. rewrite primera_app by done. simpl.
  rewrite decide_True by done. by destruct (permitida t).
Qed.

(** C2, as the code has it.  In a collection without repeated ids, for
    a task whose [inhabilitada] flag is set: [completar_tarea] and
    [marcar_incompleta] on its id return [False] and leave the whole
    store as it was; [borrar_tarea] on its id returns [True], and the
    task collection is still the same. *)
Theorem mutaciones_sobre_inhabilitada (t : tarea) (m : string) (st : estado) :
  NoDup (id <$> tareas st) ->
  t ∈ tareas st ->
  inhabilitada t = true ->
  completar_tarea escribir (id t) st = (false, st) /\
  marcar_incompleta escribir (id t) m st = (false, st) /\
  fst (borrar_tarea escribir (id t) st) = true /\
  tareas (snd (borrar_tarea escribir (id t) st)) = tareas st.
Proof.
  intros Hnd Hin Hinh.
  destruct (primera_con_id _ _ Hnd Hin) as (l1 & l2 & Hts & Hl1).
  unfold completar_tarea, marcar_incompleta, borrar_tarea.
  rewrite completar_bucle_primera, incompleta_bucle_primera, borrar_bucle_primera.
  rewrite Hts, !primera_en by done. rewrite Hinh. simpl.
  by rewrite con_inhabilitada_id.
Qed.

(** C3.  In a collection without repeated ids, for a task that is not
    disabled: [completar_tarea] then [marcar_incompleta] with reason
    [r] both return [True] and leave, at the task's position, the task
    with [completada = False] and [motivo = r]; [marcar_incompleta]
    then [completar_tarea] both return [True] and leave it with
    [completada = True] and [motivo = ""].  Every other field of the
    task and every other task are as before. *)
Theorem completar_y_reabrir (t : tarea) (r : string) (st : estado) :
  NoDup (id <$> tareas st) ->
  t ∈ tareas st ->
  inhabilitada t = false ->
  exists l1 l2, tareas st = l1 ++ t :: l2 /\
    (let '(ok1, st1) := completar_tarea escribir (id t) st in
     let '(ok2, st2) := marcar_incompleta escribir (id t) r st1 in
     ok1 = true /\ ok2 = true /\
     tareas st2 = l1 ++ Tarea (id t) (texto t) false r false (lista t) (tema t) :: l2) /\
    (let '(ok1, st1) := marcar_incompleta escribir (id t) r st in
     let '(ok2, st2) := completar_tarea escribir (id t) st1 in
     ok1 = true /\ ok2 = true /\
     tareas st2 = l1 ++ Tarea (id t) (texto t) true "" false (lista t) (tema t) :: l2).
Proof.
  intros Hnd Hin Hinh.
  destruct (primera_con_id _ _ Hnd Hin) as (l1 & l2 & Hts & Hl1).
  exists l1, l2. split; [done|].
  assert (Hc : forall c m, Forall (fun x => id x <> id (con_estado c m t)) l1) by done.
  assert (Hi : forall c m, inhabilitada (con_estado c m t) = false) by done.
  unfold completar_tarea, marcar_incompleta.
  rewrite completar_bucle_primera, incompleta_bucle_primera.
  rewrite Hts, !primera_en by done. rewrite Hinh. simpl.
  rewrite completar_bucle_primera, incompleta_bucle_primera.
  rewrite (primera_en _ _ l1 l2 (con_estado true "" t)) by apply Hc.
  rewrite (primera_en _ _ l1 l2 (con_estado false r t)) by apply Hc.
  rewrite !Hi. simpl. unfold con_estado; simpl. rewrite Hinh. done.
Qed.

End Tareas.

(** ** The id counter *)

Lemma foldl_max_cota (a : Z) (l : list Z) :
  a <= foldl Z.max a l /\ Forall (fun x => x <= foldl Z.max a l) l.
Proof.
  revert a. induction l as [|x l IH]; intros a; simpl; [by split; [lia|]|].
  destruct (IH (Z.max a x)) as [Ha Hl]. split; [lia|].
  constructor; [lia|done].
Qed.

Lemma foldl_max_alcanzado (a : Z) (l : list Z) :
  foldl Z.max a l = a \/ foldl Z.max a l ∈ l.
Proof.
  revert a. induction l as [|x l IH]; intros a; simpl; [by left|].
  destruct (IH (Z.max a x)) as [->|Hin].
  - destruct (Z.max_spec a x) as [[_ ->]|[_ ->]]; [right; left|by left].
  - right. by right.
Qed.

Lemma max_id_cota (ts : list tarea) : Forall (fun t => id t <= max_id ts) ts.
Proof.
  destruct ts as [|t ts]; [done|]. simpl.
  destruct (foldl_max_cota (id t) (id <$> ts)) as [Ha Hl].
  constructor; [done|]. rewrite Forall_fmap in Hl. exact Hl.
Qed.

Lemma max_id_alcanzado (ts : list tarea) :
  ts <> [] -> exists t, t ∈ ts /\ id t = max_id ts.
Proof.
  destruct ts as [|t ts]; [done|]. intros _. simpl.
  destruct (foldl_max_alcanzado (id t) (id <$> ts)) as [->|Hin].
  - exists t. split; [left|done].
  - apply list_elem_of_fmap in Hin as (x & Hx & Hin). exists x. split; [by right|done].
Qed.

(** The maximum is the one id that bounds all and is present. *)
Lemma max_id_unico (ts : list tarea) (m : Z) :
  Forall (fun t => id t <= m) ts ->
  (exists t, t ∈ ts /\ id t = m) ->
  max_id ts = m.
Proof.
  intros Hcota (t & Hin & Hid).
  assert (Hne : ts <> []) by (intros ->; by apply not_elem_of_nil in Hin).
  destruct (max_id_alcanzado ts Hne) as (x & Hx & Hmx).
  pose proof (max_id_cota ts) as Hmax.
  rewrite Forall_forall in Hcota, Hmax.
  specialize (Hcota x Hx). specialize (Hmax t Hin). simpl in *. lia.
Qed.

Lemma seqZ_ordenada (m n : Z) : StronglySorted Z.lt (seqZ m n).
Proof.
  destruct (decide (n <= 0)) as [Hn|Hn]; [rewrite seqZ_nil by done; constructor|].
  rewrite <- (Z2Nat.id n) by lia. generalize (Z.to_nat n) as k. clear n Hn.
  intros k. revert m. induction k as [|k IH]; intros m.
  - rewrite seqZ_nil by done. constructor.
  - rewrite seqZ_cons by lia.
    replace (Z.pred (Z.of_nat (S k))) with (Z.of_nat k) by lia.
    constructor; [apply IH|]. apply Forall_seqZ. lia.
Qed.

Lemma filter_vacio {A} (P : A -> Prop) `{!forall x, Decision (P x)} (l : list A) :
  Forall (fun x => ~ P x) l -> filter P l = [].
Proof.
  induction 1 as [|x l Hx _ IH]; [done|]. by rewrite filter_cons_False.
Qed.

(** In a list without repeated ids each member is the only task with its id. *)
Lemma una_sola_con_id (ts : list tarea) (n : tarea) :
  NoDup (id <$> ts) -> n ∈ ts ->
  length (filter (fun t => id t = id n) ts) = 1%nat.
Proof.
  intros Hnd Hin. destruct (primera_con_id _ _ Hnd Hin) as (l1 & l2 & -> & Hl1).
  rewrite fmap_app, fmap_cons in Hnd.
  apply NoDup_app in Hnd as (_ & _ & Hnd2). apply NoDup_cons in Hnd2 as [Hn2 _].
  rewrite filter_app, filter_cons_True by done.
  rewrite length_app. simpl.
  assert (H1 : filter (fun t => id t = id n) l1 = []).
  { by apply filter_vacio. }
  assert (H2 : filter (fun t => id t = id n) l2 = []).
  { apply filter_vacio. apply Forall_forall. intros x Hx Heq.
    apply Hn2. rewrite <- Heq. by apply list_elem_of_fmap_2. }
  by rewrite H1, H2.
Qed.

Section Ids.
Context (escribir : archivo -> json -> archivo).

Lemma agregar_varias_forma entradas st :
  let '(nuevas, st') := agregar_varias escribir entradas st in
  tareas st' = tareas st ++ nuevas /\
  ultimo_id st' = ultimo_id st + Z.of_nat (length entradas) /\
  id <$> nuevas = seqZ (ultimo_id st + 1) (Z.of_nat (length entradas)).
Proof.
  revert st. induction entradas as [|[texto lista] resto IH]; intros st.
  - simpl. rewrite app_nil_r, seqZ_nil by done. split; [done|]. split; [lia|done].
  - cbn [agregar_varias]. unfold agregar_tarea.
    set (t := Tarea _ _ _ _ _ _ _).
    set (st1 := guardar_tareas escribir _).
    specialize (IH st1). destruct (agregar_varias escribir resto st1) as [ts st2].
    destruct IH as (Hts & Hu & Hids). subst st1. simpl in Hts, Hu, Hids.
    cbn [length]. rewrite Nat2Z.inj_succ.
    split; [|split].
    + rewrite Hts, <- app_assoc. done.
    + rewrite Hu. lia.
    + rewrite fmap_cons, Hids.
      rewrite (seqZ_cons (ultimo_id st + 1)) by lia.
      subst t. simpl. f_equal. f_equal; lia.
Qed.

(** C1.  Starting from a store whose counter is the maximum id present
    (0 for the empty store), a run of [agregar_tarea] calls appends the
    created tasks in call order; their ids are the consecutive integers
    after the counter, hence strictly increasing and pairwise distinct;
    each is greater than every id that was already there; each occurs
    exactly once in the resulting collection; and the counter is again
    the maximum id present. *)
Theorem agregar_varias_ids (entradas : list (string * string)) (st : estado) :
  ultimo_id st = max_id (tareas st) ->
  let '(nuevas, st') := agregar_varias escribir entradas st in
  tareas st' = tareas st ++ nuevas /\
  length nuevas = length entradas /\
  (forall k n, nuevas !! k = Some n -> id n = ultimo_id st + 1 + Z.of_nat k) /\
  StronglySorted Z.lt (id <$> nuevas) /\
  NoDup (id <$> nuevas) /\
  (forall n t, n ∈ nuevas -> t ∈ tareas st -> id t < id n) /\
  (forall n, n ∈ nuevas ->
     length (filter (fun t => id t = id n) (tareas st')) = 1%nat) /\
  ultimo_id st' = max_id (tareas st').
Proof.
  intros Hmax. pose proof (agregar_varias_forma entradas st) as Hforma.
  destruct (agregar_varias escribir entradas st) as [nuevas st'].
  destruct Hforma as (Hts & Hu & Hids).
  pose proof (max_id_cota (tareas st)) as Hcota. rewrite <- Hmax in Hcota.
  rewrite Forall_forall in Hcota.
  assert (Hlen : length nuevas = length entradas).
  { rewrite <- (length_fmap id nuevas), Hids, length_seqZ. lia. }
  assert (Hidx : forall k n, nuevas !! k = Some n -> id n = ultimo_id st + 1 + Z.of_nat k).
  { intros k n Hk. assert (Hk' : (id <$> nuevas) !! k = Some (id n))
      by (by rewrite list_lookup_fmap, Hk).
    rewrite Hids in Hk'. by apply lookup_seqZ in Hk' as [-> _]. }
  assert (Hviejas : forall n t, n ∈ nuevas -> t ∈ tareas st -> id t < id n).
  { intros n t Hn Ht. apply list_elem_of_lookup in Hn as [k Hk].
    rewrite (Hidx k n Hk). specialize (Hcota t Ht). simpl in Hcota. lia. }
  repeat split; try done.
  - rewrite Hids. apply seqZ_ordenada.
  - rewrite Hids. apply NoDup_seqZ.
  - intros n Hn. rewrite Hts, filter_app, length_app.
    assert (H0 : filter (fun t => id t = id n) (tareas st) = []).
    { apply filter_vacio. apply Forall_forall. intros t Ht Heq.
      specialize (Hviejas n t Hn Ht). lia. }
    rewrite H0. simpl. apply una_sola_con_id; [|done].
    rewrite Hids. apply NoDup_seqZ.
  - destruct entradas as [|e resto].
    + destruct nuevas; [|done]. rewrite Hts, app_nil_r, Hu. simpl. lia.
    + symmetry. apply max_id_unico.
      * rewrite Hts. apply Forall_app. split.
        -- apply Forall_forall. intros t Ht. specialize (Hcota t Ht). simpl in *. lia.
        -- apply Forall_forall. intros n Hn.
           apply list_elem_of_lookup in Hn as [k Hk]. rewrite (Hidx k n Hk).
           apply lookup_lt_Some in Hk. rewrite Hlen in Hk. simpl in *. lia.
      * assert (Hlt : (length resto < length nuevas)%nat) by (rewrite Hlen; simpl; lia).
        apply lookup_lt_is_Some_2 in Hlt as [n Hn]. exists n. split.
        -- rewrite Hts. apply elem_of_app. right. by eapply list_elem_of_lookup_2.
        -- rewrite (Hidx _ _ Hn), Hu. simpl. lia.
Qed.

End Ids.

(** ** Saving and loading *)

(** What [cargar_tareas] rebuilds from the object written for [t]: the
    same task, with an empty [lista] replaced by ["general"]. *)
Lemma cargar_tarea_json (t : tarea) :
  cargar_tarea (json_de_tarea t) = Valor (con_lista (lista_de t) t).
Proof. reflexivity. Qed.

Lemma cargar_lista_json (ts : list tarea) :
  cargar_lista (json_de_tarea <$> ts) = Valor ((fun t => con_lista (lista_de t) t) <$> ts).
Proof.
  induction ts as [|t ts IH]; [done|].
  rewrite !fmap_cons. cbn [cargar_lista]. rewrite cargar_tarea_json, IH. done.
Qed.

Lemma con_lista_no_vacia (t : tarea) :
  lista t <> "" -> con_lista (lista_de t) t = t.
Proof.
  intros Hne. unfold lista_de, str_or. rewrite decide_False by done.
  by destruct t.
Qed.

Lemma lista_de_no_vacia (t : tarea) : lista_de t <> "".
Proof. unfold lista_de, str_or. by case_decide. Qed.

Lemma lista_de_idem (t : tarea) : lista_de (con_lista (lista_de t) t) = lista_de t.
Proof.
  unfold lista_de at 1. simpl. unfold str_or at 1.
  rewrite decide_False; [done|apply lista_de_no_vacia].
Qed.

Lemma max_id_ext (ts ts' : list tarea) :
  id <$> ts = id <$> ts' -> max_id ts = max_id ts'.
Proof.
  destruct ts as [|t ts], ts' as [|t' ts']; try done.
  rewrite !fmap_cons. intros [= Ht Hts]. simpl. by rewrite Ht, Hts.
Qed.

Section Persistencia.
Context (escribir : archivo -> json -> archivo).

Lemma cargar_lo_guardado (st : estado) :
  escribir (disco st) (json_de_tareas (tareas st)) = Contenido (json_de_tareas (tareas st)) ->
  cargar_tareas (guardar_tareas escribir st) =
    let ts := (fun t => con_lista (lista_de t) t) <$> tareas st in
    Valor (Estado ts (max_id ts) (Contenido (json_de_tareas (tareas st)))).
Proof.
  intros Hok. unfold cargar_tareas, guardar_tareas. cbn [disco tareas ultimo_id].
  rewrite Hok. unfold json_de_tareas. by rewrite cargar_lista_json.
Qed.

Lemma normalizar_bien_formadas (ts : list tarea) :
  Forall (fun t => lista t <> "") ts ->
  (fun t => con_lista (lista_de t) t) <$> ts = ts.
Proof.
  intros Hall. rewrite <- (list_fmap_id ts) at 2.
  apply Forall_fmap_ext_1. eapply Forall_impl; [exact Hall|].
  intros t Ht. by apply con_lista_no_vacia.
Qed.

(** What is read back from the written file does not depend on what
    the process holds in memory when it loads. *)
Lemma cargar_del_archivo_guardado (ts0 : list tarea) (u0 : Z) (st : estado) :
  escribir (disco st) (json_de_tareas (tareas st)) = Contenido (json_de_tareas (tareas st)) ->
  cargar_tareas (Estado ts0 u0 (disco (guardar_tareas escribir st))) =
    let ts := (fun t => con_lista (lista_de t) t) <$> tareas st in
    Valor (Estado ts (max_id ts) (Contenido (json_de_tareas (tareas st)))).
Proof.
  intros Hok. unfold cargar_tareas, guardar_tareas. cbn [disco tareas ultimo_id].
  rewrite Hok. unfold json_de_tareas. by rewrite cargar_lista_json.
Qed.

(** C4.  When the write goes through, [cargar_tareas] run on the file
    that [guardar_tareas] left, from whatever the process holds in
    memory at that moment (a fresh process, or any other tasks and
    counter), returns normally with as many tasks as were saved, in the
    same order; each loaded task has the [id], [texto], [completada],
    [motivo], [inhabilitada] and [tema] of the saved one and the same
    list name as read by the program ([lista or "general"]), and is the
    very same record when its [lista] is not empty, as it is in every
    task the program builds.  The counter is the maximum id of the
    loaded tasks, 0 when there is none, and the file is left as
    written. *)
Theorem guardar_y_cargar (st : estado) (ts0 : list tarea) (u0 : Z) :
  escribir (disco st) (json_de_tareas (tareas st)) = Contenido (json_de_tareas (tareas st)) ->
  exists st',
    cargar_tareas (Estado ts0 u0 (disco (guardar_tareas escribir st))) = Valor st' /\
    Forall2 (fun t t' => mismo_salvo_lista t t' /\ lista_de t' = lista_de t /\
                         (lista t <> "" -> t' = t)) (tareas st) (tareas st') /\
    (Forall (fun t => lista t <> "") (tareas st) -> tareas st' = tareas st) /\
    ultimo_id st' = max_id (tareas st') /\
    (tareas st' = [] -> ultimo_id st' = 0) /\
    Forall (fun t => id t <= ultimo_id st') (tareas st') /\
    (tareas st' <> [] -> exists t, t ∈ tareas st' /\ id t = ultimo_id st') /\
    disco st' = disco (guardar_tareas escribir st).
Proof.
  intros Hok. rewrite (cargar_del_archivo_guardado ts0 u0 st Hok). cbv zeta.
  eexists. split; [reflexivity|]. cbn [tareas ultimo_id].
  split; [|split; [|split; [|split; [|split; [|split]]]]].
  - apply Forall2_fmap_r, Forall2_same_length_lookup_2; [done|].
    intros k x y Hx Hy. rewrite Hx in Hy. injection Hy as <-.
    split; [by repeat split|]. split; [apply lista_de_idem|apply con_lista_no_vacia].
  - apply normalizar_bien_formadas.
  - done.
  - by intros ->.
  - apply max_id_cota.
  - apply max_id_alcanzado.
  - unfold guardar_tareas. cbn [disco]. by rewrite Hok.
Qed.

(** A missing or unreadable file starts the empty store with counter 0. *)
Lemma cargar_tareas_sin_archivo (ts : list tarea) (u : Z) (d : archivo) :
  d = NoExiste \/ d = Ilegible ->
  cargar_tareas (Estado ts u d) = Valor (Estado [] 0 d).
Proof. by intros [-> | ->]. Qed.

End Persistencia.

(** ** Operations on whole lists *)

Lemma Forall2_fmap_mismo {A B} (R : A -> B -> Prop) (f : A -> B) (l : list A) :
  (forall x, R x (f x)) -> Forall2 R l (f <$> l).
Proof. intros HR. induction l; constructor; auto. Qed.

Lemma length_filter_complemento {A} (P : A -> Prop) `{!forall x, Decision (P x)}
  (l : list A) :
  (length (filter (fun x => ~ P x) l) + length (filter P l) = length l)%nat.
Proof.
  induction l as [|x l IH]; [done|].
  destruct (decide (P x)).
  - rewrite (filter_cons_True P x l) by done.
    rewrite (filter_cons_False (fun x => ~ P x) x l) by (intros Hn; by apply Hn). simpl. lia.
  - rewrite (filter_cons_False P x l) by done.
    rewrite (filter_cons_True (fun x => ~ P x) x l) by done. simpl. lia.
Qed.

Section Listas.
Context (escribir : archivo -> json -> archivo).

(** C5.  [eliminar_lista] on ["general"] returns the store as it was,
    file included.  On any other name the remaining tasks are a
    subsequence of the old collection that holds exactly the tasks of
    the other lists: none of the named list is left, every other list
    reads as before, task for task and in the same order, and the number
    of tasks dropped is the size of the named list.  The counter is
    kept, and the remaining collection is what is written to the file. *)
Theorem eliminar_lista_efecto (nombre : string) (st : estado) :
  snd (eliminar_lista escribir "general" st) = st /\
  (nombre <> "general" ->
   let st' := snd (eliminar_lista escribir nombre st) in
   sublist (tareas st') (tareas st) /\
   (forall t, t ∈ tareas st' <-> t ∈ tareas st /\ lista_de t <> nombre) /\
   tareas_de_lista nombre (tareas st') = [] /\
   (forall otra, otra <> nombre ->
      tareas_de_lista otra (tareas st') = tareas_de_lista otra (tareas st)) /\
   (length (tareas st') + length (tareas_de_lista nombre (tareas st))
      = length (tareas st))%nat /\
   ultimo_id st' = ultimo_id st /\
   disco st' = escribir (disco st) (json_de_tareas (tareas st'))).
Proof.
  split; [done|]. intros Hne. unfold eliminar_lista.
  rewrite decide_False by done. cbn [snd guardar_tareas con_tareas tareas ultimo_id disco].
  split; [apply sublist_filter|].
  split; [intros t; rewrite list_elem_of_filter; tauto|].
  split.
  { unfold tareas_de_lista. rewrite list_filter_filter. apply filter_vacio.
    apply Forall_forall. intros t _ [H1 H2]. done. }
  split.
  { intros otra Hotra. unfold tareas_de_lista. rewrite list_filter_filter.
    apply list_filter_iff. intros t. split; [tauto|]. intros <-. by split. }
  split; [|done].
  unfold tareas_de_lista. apply length_filter_complemento.
Qed.

(** C8.  With [nuevo] the trimmed form value: when [nuevo] is empty or
    equal to the old name, [renombrar_lista] returns the store as it
    was.  Otherwise the collection keeps its length and order; position
    by position a task of the old list has [lista = nuevo] and every
    other field as before, and a task of another list is left as it
    was; afterwards no task reads as being in the old list, each task
    that was in it is found in the new list with only [lista] changed,
    and the tasks that already were in the new list are still there. *)
Theorem renombrar_lista_efecto (viejo : string) (req : request) (st : estado) :
  let nuevo := strip (get (form req) "nuevo_nombre" "") in
  let st' := snd (renombrar_lista escribir viejo req st) in
  (nuevo = "" \/ nuevo = viejo -> st' = st) /\
  (nuevo <> "" -> nuevo <> viejo ->
   Forall2 (fun t t' => mismo_salvo_lista t t' /\
                        (lista_de t = viejo -> lista t' = nuevo) /\
                        (lista_de t <> viejo -> t' = t))
           (tareas st) (tareas st') /\
   length (tareas st') = length (tareas st) /\
   tareas_de_lista viejo (tareas st') = [] /\
   (forall t, t ∈ tareas_de_lista viejo (tareas st) ->
      Tarea (id t) (texto t) (completada t) (motivo t) (inhabilitada t) nuevo (tema t)
        ∈ tareas_de_lista nuevo (tareas st')) /\
   (forall t, t ∈ tareas_de_lista nuevo (tareas st) ->
      t ∈ tareas_de_lista nuevo (tareas st')) /\
   ultimo_id st' = ultimo_id st).
Proof.
  intros nuevo st'. subst st'. unfold renombrar_lista. fold nuevo. split.
  - intros Hno. by rewrite decide_True.
  - intros Hvac Hdif. rewrite decide_False by tauto.
    cbn [snd guardar_tareas con_tareas tareas ultimo_id].
    set (f := fun t => if decide (lista_de t = viejo) then con_lista nuevo t else t).
    assert (Hnuevo : forall t, lista_de (con_lista nuevo t) = nuevo).
    { intros t. unfold lista_de, str_or. simpl. by rewrite decide_False. }
    repeat split.
    + apply Forall2_fmap_mismo. intros t. unfold f.
      case_decide; [by repeat split|by repeat split].
    + apply length_fmap.
    + unfold tareas_de_lista. apply filter_vacio, Forall_fmap, Forall_forall.
      intros t _. simpl. unfold f. case_decide; [by rewrite Hnuevo|done].
    + intros t Ht. apply list_elem_of_filter in Ht as [Hl Ht].
      apply list_elem_of_filter. split; [apply (Hnuevo t)|].
      apply list_elem_of_fmap. exists t. split; [|done].
      unfold f. by rewrite decide_True.
    + intros t Ht. apply list_elem_of_filter in Ht as [Hl Ht].
      apply list_elem_of_filter. split; [done|].
      apply list_elem_of_fmap. exists t. split; [|done].
      unfold f. rewrite decide_False; [done|]. by rewrite Hl.
Qed.

End Listas.

(** ** List names and the summary *)

Lemma sorted_elem (s : gset string) (n : string) : n ∈ sorted s <-> n ∈ s.
Proof.
  unfold sorted. rewrite (merge_sort_Permutation String.le (elements s)).
  apply elem_of_elements.
Qed.

Lemma sorted_NoDup (s : gset string) : NoDup (sorted s).
Proof.
  unfold sorted. rewrite (merge_sort_Permutation String.le (elements s)).
  apply NoDup_elements.
Qed.

Lemma sorted_ordenada (s : gset string) : StronglySorted String.le (sorted s).
Proof. apply StronglySorted_merge_sort; apply _. Qed.

Lemma obtener_listas_elem (st : estado) (n : string) :
  n ∈ obtener_listas st <->
  n = "general" \/ exists t, t ∈ tareas st /\ lista_de t = n.
Proof.
  unfold obtener_listas. cbv zeta. case_decide as Hvac.
  - rewrite list_elem_of_singleton. split; [by left|].
    intros [->|(t & Ht & _)]; [done|].
    assert (lista_de t ∈ (list_to_set (lista_de <$> tareas st) : gset string)) as Hin.
    { apply elem_of_list_to_set. by apply list_elem_of_fmap_2. }
    rewrite Hvac in Hin. by apply not_elem_of_empty in Hin.
  - rewrite sorted_elem, elem_of_union, elem_of_singleton, elem_of_list_to_set.
    rewrite list_elem_of_fmap. split.
    + intros [(t & -> & Ht)| -> ]; [right; by exists t|by left].
    + intros [->|(t & Ht & <-)]; [by right|left; by exists t].
Qed.

Lemma primer_tema_spec (nombre : string) (ts : list tarea) :
  es_primer_tema nombre ts (primer_tema (tareas_de_lista nombre ts)).
Proof.
  unfold tareas_de_lista. induction ts as [|t ts IH]; [by left|].
  destruct (decide (lista_de t = nombre)) as [Hl|Hl].
  - rewrite filter_cons_True by done. cbn [primer_tema].
    case_decide as Ht.
    + destruct IH as [[H0 Hall]|(Hne & l1 & x & l2 & -> & Hx & Hte & Hl1)].
      * left. split; [done|]. by constructor.
      * right. split; [done|]. exists (t :: l1), x, l2.
        split; [done|]. split; [done|]. split; [done|]. by constructor.
    + right. split; [done|]. exists [], t, ts. by repeat split.
  - rewrite filter_cons_False by done.
    destruct IH as [[H0 Hall]|(Hne & l1 & x & l2 & -> & Hx & Hte & Hl1)].
    + left. split; [done|]. by constructor.
    + right. split; [done|]. exists (t :: l1), x, l2.
      split; [done|]. split; [done|]. split; [done|]. by constructor.
Qed.

(** C6.  [obtener_listas] returns, without repetition and in ascending
    order, exactly the names that are ["general"] or the normalized
    [lista] of some task, disabled or not; so ["general"] is always
    there, also for the empty collection.  [construir_resumen_listas]
    has one entry per such name, in that order, where [total] counts
    the tasks of the list (the active and the disabled ones), [activas]
    those that are not disabled, [completadas] those that are completed,
    and [tema] is the first non-empty theme of the list in storage
    order, or empty when there is none. *)
Theorem listas_y_resumen (st : estado) :
  (forall n, n ∈ obtener_listas st <->
     n = "general" \/ exists t, t ∈ tareas st /\ lista_de t = n) /\
  "general" ∈ obtener_listas st /\
  (tareas st = [] -> obtener_listas st = ["general"]) /\
  NoDup (obtener_listas st) /\
  StronglySorted String.le (obtener_listas st) /\
  r_nombre <$> construir_resumen_listas st = obtener_listas st /\
  (forall r, r ∈ construir_resumen_listas st ->
     let en_lista t := lista_de t = r_nombre r in
     r_total r = length (filter en_lista (tareas st)) /\
     r_total r =
       (r_activas r +
        length (filter (fun t => en_lista t /\ inhabilitada t = true) (tareas st)))%nat /\
     r_activas r =
       length (filter (fun t => en_lista t /\ inhabilitada t = false) (tareas st)) /\
     r_completadas r =
       length (filter (fun t => en_lista t /\ completada t = true) (tareas st)) /\
     es_primer_tema (r_nombre r) (tareas st) (r_tema r)).
Proof.
  split; [apply obtener_listas_elem|].
  split; [apply obtener_listas_elem; by left|].
  split; [by unfold obtener_listas; intros ->|].
  split.
  { unfold obtener_listas. cbv zeta. case_decide; [apply NoDup_singleton|apply sorted_NoDup]. }
  split.
  { unfold obtener_listas. cbv zeta. case_decide; [|apply sorted_ordenada].
    repeat constructor. }
  split.
  { unfold construir_resumen_listas. rewrite <- list_fmap_compose.
    rewrite <- (list_fmap_id (obtener_listas st)) at 2. by apply list_fmap_ext. }
  intros r Hr en_lista. unfold construir_resumen_listas in Hr.
  apply list_elem_of_fmap in Hr as (n & -> & _). subst en_lista.
  unfold resumen_de. cbn [r_nombre r_total r_activas r_completadas r_tema].
  unfold tareas_de_lista.
  assert (Hact : filter (fun t => inhabilitada t = false)
                   (filter (fun t => lista_de t = n) (tareas st)) =
                 filter (fun t => lista_de t = n /\ inhabilitada t = false) (tareas st)).
  { rewrite list_filter_filter. apply list_filter_iff. tauto. }
  assert (Hcom : filter (fun t => completada t = true)
                   (filter (fun t => lista_de t = n) (tareas st)) =
                 filter (fun t => lista_de t = n /\ completada t = true) (tareas st)).
  { rewrite list_filter_filter. apply list_filter_iff. tauto. }
  rewrite Hact, Hcom.
  split; [done|]. split; [|split; [done|split; [done|apply primer_tema_spec]]].
  clear. induction (tareas st) as [|t ts IH]; [done|].
  rewrite !filter_cons.
  destruct (decide (lista_de t = n)) as [Hl|Hl].
  - destruct (inhabilitada t) eqn:Hi.
    + rewrite decide_False by (intros [_ ?]; done). rewrite decide_True by done.
      simpl. lia.
    + rewrite decide_True by done. rewrite decide_False by (intros [_ ?]; done).
      simpl. lia.
  - rewrite !decide_False by (intros [? _]; done). done.
Qed.

(** ** Blank text, and creating a list *)

Section Rutas.
Context (escribir : archivo -> json -> archivo).

(** C7.  [ruta_agregar_tarea] trims the form text and calls
    [agregar_tarea] only when something is left: when the trimmed text
    is empty the store comes back as it was, and whenever the handler
    does append a task, it is a single one, at the end, whose [texto]
    is the trimmed text and is not empty. *)
Theorem texto_en_blanco_no_crea (req : request) (st : estado) :
  let recortado := strip (get (form req) "texto" "") in
  let st' := snd (ruta_agregar_tarea escribir req st) in
  (recortado = "" -> st' = st) /\
  (recortado <> "" ->
   exists t, tareas st' = tareas st ++ [t] /\ texto t = recortado /\
             id t = ultimo_id st + 1) /\
  (forall t, t ∈ tareas st' -> t ∈ tareas st \/ texto t <> "").
Proof.
  intros recortado st'. subst st'. unfold ruta_agregar_tarea. fold recortado.
  cbn [snd]. split; [|split].
  - intros Hvac. by rewrite decide_True.
  - intros Hne. rewrite decide_False by done. simpl. eauto.
  - intros t. case_decide as Hvac; [by left|]. simpl.
    rewrite elem_of_app, list_elem_of_singleton. intros [Ht| ->]; [by left|by right].
Qed.

End Rutas.

(** C10.  [crear_lista] returns the store it was given: tasks, counter
    and file are the same.  A name shown by [obtener_listas] other than
    ["general"] is the list name of some task, and an entry of
    [construir_resumen_listas] other than ["general"] has a positive
    [total]; so the name sent to [crear_lista] is listed afterwards only
    if it is ["general"] or some task already carries it. *)
Theorem crear_lista_no_muta (req : request) (st : estado) :
  let nombre := str_or (strip (get (form req) "nombre" "")) "general" in
  let st' := snd (crear_lista req st) in
  st' = st /\
  fst (crear_lista req st) = Redirect "vista_tareas" (Some nombre) /\
  (forall n, n ∈ obtener_listas st' -> n <> "general" ->
     exists t, t ∈ tareas st /\ lista_de t = n) /\
  (forall r, r ∈ construir_resumen_listas st' -> r_nombre r <> "general" ->
     (0 < r_total r)%nat) /\
  (nombre ∈ obtener_listas st' ->
     nombre = "general" \/ exists t, t ∈ tareas st /\ lista_de t = nombre).
Proof.
  intros nombre st'. subst st'. cbn [crear_lista snd fst].
  split; [done|]. split; [done|]. split; [|split].
  - intros n Hn Hne. apply obtener_listas_elem in Hn as [->|Ht]; done.
  - intros r Hr Hne. unfold construir_resumen_listas in Hr.
    apply list_elem_of_fmap in Hr as (n & -> & Hn). simpl in *.
    apply obtener_listas_elem in Hn as [->|(t & Ht & Hl)]; [done|].
    assert (Hin : t ∈ tareas_de_lista n (tareas st)) by (by apply list_elem_of_filter).
    destruct (tareas_de_lista n (tareas st)); [by apply not_elem_of_nil in Hin|simpl; lia].
  - intros Hn. by apply obtener_listas_elem in Hn.
Qed.

(** ** The invariant behind the uniqueness hypotheses

    Every store reached from a missing file has pairwise distinct ids,
    none above the counter, and no empty [lista]. *)

Lemma bien_formado_inicial (d : archivo) : bien_formado (Estado [] 0 d).
Proof. split; [constructor|split; constructor]. Qed.

Lemma bien_formado_mismos_ids (st : estado) (ts : list tarea) (d : archivo) :
  bien_formado st ->
  id <$> ts = id <$> tareas st ->
  Forall (fun t => lista t <> "") ts ->
  bien_formado (Estado ts (ultimo_id st) d).
Proof.
  intros (Hnd & Hcota & _) Hids Hl. split; [|split]; simpl; [by rewrite Hids| |done].
  assert (Hz : Forall (fun z => z <= ultimo_id st) (id <$> ts)).
  { rewrite Hids. apply Forall_forall. intros z Hz.
    apply list_elem_of_fmap in Hz as (t & -> & Ht).
    rewrite Forall_forall in Hcota. by apply Hcota. }
  apply Forall_forall. intros t Ht. rewrite Forall_forall in Hz.
  apply Hz. by apply list_elem_of_fmap_2.
Qed.

Lemma cambia_mismos_ids (R : tarea -> tarea -> Prop) i ts ts' :
  (forall t t', R t t' -> id t' = id t /\ lista t' = lista t) ->
  cambia_a_lo_sumo_una R i ts ts' ->
  id <$> ts' = id <$> ts /\
  (Forall (fun t => lista t <> "") ts -> Forall (fun t => lista t <> "") ts').
Proof.
  intros HR [->|(l1 & t & t' & l2 & -> & -> & _ & Ht)]; [done|].
  destruct (HR _ _ Ht) as [Hid Hl]. rewrite !fmap_app, !fmap_cons, Hid.
  split; [done|]. rewrite !Forall_app, !Forall_cons, Hl. tauto.
Qed.

Section Invariante.
Context (escribir : archivo -> json -> archivo).

Lemma agregar_tarea_bien_formado texto lista st :
  bien_formado st -> bien_formado (snd (agregar_tarea escribir texto lista st)).
Proof.
  intros (Hnd & Hcota & Hl). unfold agregar_tarea, bien_formado. simpl.
  rewrite fmap_app, !Forall_app, !Forall_singleton. simpl.
  split; [|split; [split|split]].
  - apply NoDup_app. split; [done|]. split; [|apply NoDup_singleton].
    intros x Hx Hx'. apply list_elem_of_singleton in Hx'. subst x.
    apply list_elem_of_fmap in Hx as (t & Ht & Hin).
    rewrite Forall_forall in Hcota. specialize (Hcota t Hin). simpl in Hcota. lia.
  - eapply Forall_impl; [exact Hcota|]. intros t Ht. simpl in *. lia.
  - lia.
  - done.
  - unfold str_or. by case_decide.
Qed.

Lemma completar_tarea_bien_formado i st :
  bien_formado st -> bien_formado (snd (completar_tarea escribir i st)).
Proof.
  intros Hbf. destruct (completar_tarea_cambia escribir i st) as [Hc Hu].
  apply cambia_mismos_ids in Hc as [Hids Hl]; [|by intros ?? (? & ? & ? & ? & ?)].
  destruct (snd (completar_tarea escribir i st)) as [ts u d]. simpl in *. subst u.
  apply bien_formado_mismos_ids; [done..|apply Hl, Hbf].
Qed.

Lemma marcar_incompleta_bien_formado i m st :
  bien_formado st -> bien_formado (snd (marcar_incompleta escribir i m st)).
Proof.
  intros Hbf. destruct (marcar_incompleta_cambia escribir i m st) as [Hc Hu].
  apply cambia_mismos_ids in Hc as [Hids Hl]; [|by intros ?? (? & ? & ? & ? & ?)].
  destruct (snd (marcar_incompleta escribir i m st)) as [ts u d]. simpl in *. subst u.
  apply bien_formado_mismos_ids; [done..|apply Hl, Hbf].
Qed.

Lemma borrar_tarea_bien_formado i st :
  bien_formado st -> bien_formado (snd (borrar_tarea escribir i st)).
Proof.
  intros Hbf. destruct (borrar_tarea_cambia escribir i st) as [Hc Hu].
  apply cambia_mismos_ids in Hc as [Hids Hl]; [|by intros ?? (? & ? & ? & ? & ? & ?)].
  destruct (snd (borrar_tarea escribir i st)) as [ts u d]. simpl in *. subst u.
  apply bien_formado_mismos_ids; [done..|apply Hl, Hbf].
Qed.

Lemma renombrar_lista_bien_formado viejo req st :
  bien_formado st -> bien_formado (snd (renombrar_lista escribir viejo req st)).
Proof.
  intros Hbf. unfold renombrar_lista. case_decide as Hd; [done|].
  unfold guardar_tareas, con_tareas. cbn [snd tareas ultimo_id disco].
  apply (bien_formado_mismos_ids st); [done| |].
  - rewrite <- list_fmap_compose. apply list_fmap_ext. intros k t _. simpl.
    by case_decide.
  - apply Forall_fmap, Forall_forall. intros t Ht. simpl.
    case_decide; simpl; [tauto|].
    destruct Hbf as (_ & _ & Hl). rewrite Forall_forall in Hl. by apply Hl.
Qed.

Lemma actualizar_tema_lista_bien_formado nombre req st :
  bien_formado st -> bien_formado (snd (actualizar_tema_lista escribir nombre req st)).
Proof.
  intros Hbf. unfold actualizar_tema_lista.
  unfold guardar_tareas, con_tareas. cbn [snd tareas ultimo_id disco].
  apply (bien_formado_mismos_ids st); [done| |].
  - rewrite <- list_fmap_compose. apply list_fmap_ext. intros k t _. simpl.
    by case_decide.
  - apply Forall_fmap, Forall_forall. intros t Ht. simpl.
    destruct Hbf as (_ & _ & Hl). rewrite Forall_forall in Hl.
    case_decide; simpl; by apply Hl.
Qed.

Lemma eliminar_lista_bien_formado nombre st :
  bien_formado st -> bien_formado (snd (eliminar_lista escribir nombre st)).
Proof.
  intros (Hnd & Hcota & Hl). unfold eliminar_lista. case_decide; [done|].
  unfold guardar_tareas, con_tareas, bien_formado. simpl.
  pose proof (sublist_filter (fun t => lista_de t <> nombre) (tareas st)) as Hsub.
  split; [|split].
  - apply (sublist_NoDup _ (id <$> tareas st)); [exact Hnd|by apply fmap_sublist].
  - apply Forall_forall. intros t [_ Ht]%list_elem_of_filter.
    rewrite Forall_forall in Hcota. apply (Hcota t Ht).
  - apply Forall_forall. intros t [_ Ht]%list_elem_of_filter.
    rewrite Forall_forall in Hl. apply (Hl t Ht).
Qed.

(** Restarting from a file that was written in full gives back the same
    tasks, and a store that satisfies the invariant again. *)
Lemma reinicio_bien_formado st :
  bien_formado st ->
  escribir (disco st) (json_de_tareas (tareas st)) = Contenido (json_de_tareas (tareas st)) ->
  exists st', cargar_tareas (guardar_tareas escribir st) = Valor st' /\
              tareas st' = tareas st /\ bien_formado st'.
Proof.
  intros (Hnd & Hcota & Hl) Hok.
  rewrite (cargar_lo_guardado escribir st Hok). cbv zeta.
  rewrite (normalizar_bien_formadas _ Hl).
  eexists. split; [reflexivity|]. split; [done|].
  split; [done|]. split; [apply max_id_cota|done].
Qed.

End Invariante.

(** * Concrete runs *)

(** ** The scenarios of the specification *)

Example escenario_leche :
  let '(t, st1) := agregar_tarea disco_fiable "buy milk" "general" st_vacio in
  let '(ok2, st2) := completar_tarea disco_fiable 1 st1 in
  let '(ok3, st3) := marcar_incompleta disco_fiable 1 "not done yet" st2 in
  t = Tarea 1 "buy milk" false "" false "general" "" /\
  ok2 = true /\ tareas st2 = [Tarea 1 "buy milk" true "" false "general" ""] /\
  ok3 = true /\ tareas st3 = [Tarea 1 "buy milk" false "not done yet" false "general" ""].
Proof. vm_compute. repeat split. Qed.

Example escenario_tema :
  let st1 := snd (agregar_tarea disco_fiable "plan" "work" st_vacio) in
  let st2 := snd (actualizar_tema_lista disco_fiable "work"
                    (Request {["tema" := "Q1 goals"]} ∅) st1) in
  construir_resumen_listas st2 =
    [Resumen "general" 0 0 0 ""; Resumen "work" 1 1 0 "Q1 goals"].
Proof. vm_compute. reflexivity. Qed.

Example escenario_resumen :
  construir_resumen_listas st_ej =
    [Resumen "general" 1 1 0 ""; Resumen "work" 2 1 1 "Q1"].
Proof. vm_compute. reflexivity. Qed.

Example escenario_renombrar :
  let st1 := snd (renombrar_lista disco_fiable "work"
                    (Request {["nuevo_nombre" := " job "]} ∅) st_ej) in
  tareas_de_lista "work" (tareas st1) = [] /\
  tareas_de_lista "job" (tareas st1) =
    [Tarea 2 "informe" false "" true "job" ""; Tarea 3 "llamar" true "" false "job" "Q1"].
Proof. vm_compute. split; reflexivity. Qed.

Example strip_ej1 : strip "  comprar leche	 " = "comprar leche".
Proof. vm_compute. reflexivity. Qed.

Example strip_ej2 : strip (bytes [32; 226; 128; 168; 10]) = "".
Proof. vm_compute. reflexivity. Qed.

(** [agregar_tarea] itself does not look at the text: the check for
    blank text is the one in [ruta_agregar_tarea]. *)
Example agregar_tarea_no_valida :
  tareas (snd (agregar_tarea disco_fiable "" "general" st_vacio)) =
    [Tarea 1 "" false "" false "general" ""].
Proof. reflexivity. Qed.

(** After a failed write the file still holds the old document, and a
    restart loads that one. *)
Example escritura_fallida :
  cargar_tareas (guardar_tareas disco_protegido st_ej) = Valor (Estado [] 0 NoExiste).
Proof. reflexivity. Qed.

(** A hand-made file with a repeated id: [completar_tarea] acts on the
    first task with the id. *)
Example ids_repetidos :
  let st := Estado [Tarea 1 "a" false "" false "general" "";
                    Tarea 1 "b" false "" true "general" ""] 1 NoExiste in
  fst (completar_tarea disco_fiable 1 st) = true.
Proof. reflexivity. Qed.

(** ** C2 as stated fails for [borrar_tarea] *)

(** C2, counterexample.  Task 2 of [st_ej] is disabled, and
    [borrar_tarea] on its id returns [True], not [False]. *)
Lemma borrar_tarea_inhabilitada_devuelve_true :
  let t := Tarea 2 "informe" false "" true "work" "" in
  t ∈ tareas st_ej /\ inhabilitada t = true /\
  fst (borrar_tarea disco_fiable (id t) st_ej) = true /\
  fst (borrar_tarea disco_fiable (id t) st_ej) <> false.
Proof. split; [compute_done|]. split; [done|]. split; [reflexivity|]. vm_compute. discriminate. Qed.

(** ** The theorems at concrete stores *)

Lemma agregar_varias_ids_testigo :
  ultimo_id st_ej = max_id (tareas st_ej) /\
  StronglySorted Z.lt
    (id <$> fst (agregar_varias disco_fiable [("a", "work"); ("b", "")] st_ej)).
Proof.
  split; [reflexivity|].
  exact (proj1 (proj2 (proj2 (proj2
    (agregar_varias_ids disco_fiable [("a", "work"); ("b", "")] st_ej eq_refl))))).
Defined.

Lemma mutaciones_sobre_inhabilitada_testigo :
  let t := Tarea 2 "informe" false "" true "work" "" in
  NoDup (id <$> tareas st_ej) /\ t ∈ tareas st_ej /\ inhabilitada t = true /\
  completar_tarea disco_fiable 2 st_ej = (false, st_ej) /\
  marcar_incompleta disco_fiable 2 "luego" st_ej = (false, st_ej) /\
  fst (borrar_tarea disco_fiable 2 st_ej) = true /\
  tareas (snd (borrar_tarea disco_fiable 2 st_ej)) = tareas st_ej.
Proof.
  assert (Hnd : NoDup (id <$> tareas st_ej)) by compute_done.
  assert (Hin : Tarea 2 "informe" false "" true "work" "" ∈ tareas st_ej) by compute_done.
  split; [exact Hnd|]. split; [exact Hin|]. split; [reflexivity|].
  exact (mutaciones_sobre_inhabilitada disco_fiable _ "luego" st_ej Hnd Hin eq_refl).
Defined.

Lemma completar_y_reabrir_testigo :
  let t := Tarea 1 "comprar leche" false "" false "general" "" in
  NoDup (id <$> tareas st_ej) /\ t ∈ tareas st_ej /\ inhabilitada t = false /\
  exists l1 l2, tareas st_ej = l1 ++ t :: l2 /\
    (let '(ok1, st1) := completar_tarea disco_fiable (id t) st_ej in
     let '(ok2, st2) := marcar_incompleta disco_fiable (id t) "falta" st1 in
     ok1 = true /\ ok2 = true /\
     tareas st2 = l1 ++ Tarea (id t) (texto t) false "falta" false (lista t) (tema t) :: l2) /\
    (let '(ok1, st1) := marcar_incompleta disco_fiable (id t) "falta" st_ej in
     let '(ok2, st2) := completar_tarea disco_fiable (id t) st1 in
     ok1 = true /\ ok2 = true /\
     tareas st2 = l1 ++ Tarea (id t) (texto t) true "" false (lista t) (tema t) :: l2).
Proof.
  assert (Hnd : NoDup (id <$> tareas st_ej)) by compute_done.
  assert (Hin : Tarea 1 "comprar leche" false "" false "general" "" ∈ tareas st_ej)
    by compute_done.
  split; [exact Hnd|]. split; [exact Hin|]. split; [reflexivity|].
  exact (completar_y_reabrir disco_fiable _ "falta" st_ej Hnd Hin eq_refl).
Defined.

Lemma guardar_y_cargar_testigo :
  let ts0 := [Tarea 9 "otra" true "x" true "casa" "t"] in
  disco_fiable (disco st_ej) (json_de_tareas (tareas st_ej))
    = Contenido (json_de_tareas (tareas st_ej)) /\
  exists st',
    cargar_tareas (Estado ts0 42 (disco (guardar_tareas disco_fiable st_ej))) = Valor st' /\
    tareas st' = tareas st_ej /\ ultimo_id st' = 3.
Proof.
  intros ts0. split; [reflexivity|].
  destruct (guardar_y_cargar disco_fiable st_ej ts0 42 eq_refl)
    as (st' & Hc & _ & Heq & Hmax & _).
  exists st'. split; [exact Hc|].
  assert (Hts : tareas st' = tareas st_ej).
  { apply Heq. repeat constructor; discriminate. }
  split; [exact Hts|]. rewrite Hmax, Hts. reflexivity.
Defined.

Lemma eliminar_lista_efecto_testigo :
  "work" <> "general" /\
  tareas (snd (eliminar_lista disco_fiable "work" st_ej))
    `sublist_of` tareas st_ej /\
  tareas_de_lista "work" (tareas (snd (eliminar_lista disco_fiable "work" st_ej))) = [].
Proof.
  assert (Hne : "work" <> "general") by discriminate.
  split; [exact Hne|].
  destruct (proj2 (eliminar_lista_efecto disco_fiable "work" st_ej) Hne)
    as (Hsub & _ & Hvac & _).
  split; [exact Hsub|exact Hvac].
Defined.

Lemma listas_y_resumen_testigo :
  "work" ∈ obtener_listas st_ej /\ "general" ∈ obtener_listas st_vacio.
Proof.
  split.
  - apply (proj2 (proj1 (listas_y_resumen st_ej) "work")). right.
    exists (Tarea 2 "informe" false "" true "work" ""). split; [compute_done|reflexivity].
  - exact (proj1 (proj2 (listas_y_resumen st_vacio))).
Defined.

Lemma texto_en_blanco_no_crea_testigo :
  let req1 := Request {["texto" := "   "]} ∅ in
  let req2 := Request {["texto" := " pan "]} ∅ in
  strip (get (form req1) "texto" "") = "" /\
  strip (get (form req2) "texto" "") <> "" /\
  snd (ruta_agregar_tarea disco_fiable req1 st_ej) = st_ej /\
  exists t, tareas (snd (ruta_agregar_tarea disco_fiable req2 st_ej)) = tareas st_ej ++ [t] /\
            texto t = strip (get (form req2) "texto" "") /\
            id t = ultimo_id st_ej + 1.
Proof.
  intros req1 req2.
  assert (H1 : strip (get (form req1) "texto" "") = "") by (vm_compute; reflexivity).
  assert (H2 : strip (get (form req2) "texto" "") <> "") by (vm_compute; discriminate).
  split; [exact H1|]. split; [exact H2|]. split.
  - exact (proj1 (texto_en_blanco_no_crea disco_fiable req1 st_ej) H1).
  - exact (proj1 (proj2 (texto_en_blanco_no_crea disco_fiable req2 st_ej)) H2).
Defined.

Lemma renombrar_lista_efecto_testigo :
  let req1 := Request {["nuevo_nombre" := " work "]} ∅ in
  let req2 := Request {["nuevo_nombre" := "job"]} ∅ in
  (strip (get (form req1) "nuevo_nombre" "") = "" \/
   strip (get (form req1) "nuevo_nombre" "") = "work") /\
  strip (get (form req2) "nuevo_nombre" "") <> "" /\
  strip (get (form req2) "nuevo_nombre" "") <> "work" /\
  snd (renombrar_lista disco_fiable "work" req1 st_ej) = st_ej /\
  tareas_de_lista "work" (tareas (snd (renombrar_lista disco_fiable "work" req2 st_ej))) = [].
Proof.
  intros req1 req2.
  assert (H1 : strip (get (form req1) "nuevo_nombre" "") = "" \/
               strip (get (form req1) "nuevo_nombre" "") = "work")
    by (right; vm_compute; reflexivity).
  assert (H2 : strip (get (form req2) "nuevo_nombre" "") <> "") by (vm_compute; discriminate).
  assert (H3 : strip (get (form req2) "nuevo_nombre" "") <> "work") by (vm_compute; discriminate).
  split; [exact H1|]. split; [exact H2|]. split; [exact H3|]. split.
  - exact (proj1 (renombrar_lista_efecto disco_fiable "work" req1 st_ej) H1).
  - exact (proj1 (proj2 (proj2
      (proj2 (renombrar_lista_efecto disco_fiable "work" req2 st_ej) H2 H3)))).
Defined.

Lemma mutaciones_marco_testigo :
  length (tareas (snd (borrar_tarea disco_fiable 3 st_ej))) = length (tareas st_ej) /\
  ultimo_id (snd (completar_tarea disco_fiable 1 st_ej)) = ultimo_id st_ej.
Proof.
  split.
  - exact (proj1 (proj2 (proj2 (proj2 (proj2
      (mutaciones_marco disco_fiable 3 "" st_ej)))))).
  - exact (proj2 (proj2 (proj2 (proj1
      (mutaciones_marco disco_fiable 1 "" st_ej))))).
Defined.

Lemma crear_lista_no_muta_testigo :
  let req := Request {["nombre" := " casa "]} ∅ in
  snd (crear_lista req st_ej) = st_ej /\
  fst (crear_lista req st_ej) = Redirect "vista_tareas" (Some "casa") /\
  "casa" ∉ obtener_listas (snd (crear_lista req st_ej)).
Proof.
  intros req.
  pose proof (crear_lista_no_muta req st_ej) as H. cbv zeta in H.
  destruct H as (Hst & Hr & Hn & _).
  split; [exact Hst|]. split; [exact Hr|].
  intros Hin. assert (Hne : "casa" <> "general") by discriminate.
  destruct (Hn "casa" Hin Hne) as (t & Ht & Hl).
  revert t Ht Hl.
  apply (proj1 (Forall_forall (fun t => lista_de t = "casa" -> False) (tareas st_ej))).
  repeat (apply Forall_cons_2; [vm_compute; discriminate|]). apply Forall_nil_2.
Defined.

(** * Further properties of the store *)

(** ** Loading *)

Lemma ligar_Valor {A B} (r : resultado A) (k : A -> resultado B) (b : B) :
  ligar r k = Valor b -> exists a, r = Valor a /\ k a = Valor b.
Proof. destruct r as [a| |]; simpl; [eauto|done|done]. Qed.

Lemma cargar_tarea_lista (j : json) (t : tarea) :
  cargar_tarea j = Valor t -> lista t <> "".
Proof.
  destruct j as [| | | |l|c]; try done. unfold cargar_tarea.
  intros H.
  apply ligar_Valor in H as (i & _ & H). apply ligar_Valor in H as (tx & _ & H).
  apply ligar_Valor in H as (mo & _ & H). apply ligar_Valor in H as (li & _ & H).
  apply ligar_Valor in H as (te & _ & H). injection H as <-. simpl.
  unfold str_or. by case_decide.
Qed.

Lemma cargar_lista_listas (l : list json) (ts : list tarea) :
  cargar_lista l = Valor ts ->
  length ts = length l /\ Forall (fun t => lista t <> "") ts.
Proof.
  revert ts. induction l as [|j l IH]; intros ts; simpl.
  - by intros [= <-].
  - intros H. apply ligar_Valor in H as (x & Hx & H).
    apply ligar_Valor in H as (xs & Hxs & H). injection H as <-.
    destruct (IH xs Hxs) as [Hlen Hall]. simpl. split; [by rewrite Hlen|].
    constructor; [by eapply cargar_tarea_lista|done].
Qed.

Lemma cargar_lista_app (l1 l2 : list json) (ts1 : list tarea) :
  cargar_lista l1 = Valor ts1 ->
  cargar_lista (l1 ++ l2) = (ts2 <~ cargar_lista l2 ;; Valor (ts1 ++ ts2)).
Proof.
  revert ts1. induction l1 as [|j l1 IH]; intros ts1; simpl.
  - intros [= <-]. by destruct (cargar_lista l2).
  - intros H. apply ligar_Valor in H as (x & Hx & H).
    apply ligar_Valor in H as (xs & Hxs & H). injection H as <-.
    rewrite Hx, (IH xs Hxs). simpl. by destruct (cargar_lista l2).
Qed.

(** The shape of every store that [cargar_tareas] returns. *)
Lemma cargar_tareas_Valor (st st' : estado) :
  cargar_tareas st = Valor st' ->
  exists ts, st' = Estado ts (max_id ts) (disco st) /\
             Forall (fun t => lista t <> "") ts.
Proof.
  unfold cargar_tareas. destruct (disco st) as [| |datos] eqn:Hd.
  - intros [= <-]. by exists [].
  - intros [= <-]. by exists [].
  - intros H. apply ligar_Valor in H as (ts & Hts & H). injection H as <-.
    exists ts. split; [done|].
    destruct datos as [| | |s|l|c]; try done.
    + destruct s; [|done]. by injection Hts as <-.
    + by apply cargar_lista_listas in Hts as [_ ?].
    + destruct c; [|done]. by injection Hts as <-.
Qed.

(** X1.  Whatever the file holds, when [cargar_tareas] returns, the
    file is as it was, no loaded task has an empty [lista], and the
    counter is the maximum loaded id: it bounds every id, and is 0 for
    an empty collection.  (Ids repeated in the file stay repeated.) *)
Theorem cargar_tareas_normaliza (st st' : estado) :
  cargar_tareas st = Valor st' ->
  disco st' = disco st /\
  Forall (fun t => lista t <> "" /\ lista_de t = lista t) (tareas st') /\
  ultimo_id st' = max_id (tareas st') /\
  Forall (fun t => id t <= ultimo_id st') (tareas st') /\
  (tareas st' = [] -> ultimo_id st' = 0) /\
  (tareas st' <> [] -> exists t, t ∈ tareas st' /\ id t = ultimo_id st').
Proof.
  intros H. apply cargar_tareas_Valor in H as (ts & -> & Hl). simpl.
  split; [done|]. split.
  { eapply Forall_impl; [exact Hl|]. intros t Ht. split; [done|].
    unfold lista_de, str_or. by rewrite decide_False. }
  split; [done|]. split; [apply max_id_cota|].
  split; [by intros ->|apply max_id_alcanzado].
Qed.

(** X2.  When the file holds an array in which an element that is not
    an object follows elements that load, [cargar_tareas] does not
    start from an empty store: it raises [AttributeError]. *)
Theorem cargar_tareas_elemento_no_objeto
  (ts0 : list tarea) (u : Z) (l1 l2 : list json) (x : json) (cargadas : list tarea) :
  cargar_lista l1 = Valor cargadas ->
  (forall c, x <> JObj c) ->
  cargar_tareas (Estado ts0 u (Contenido (JArr (l1 ++ x :: l2))))
    = Excepcion AttributeError.
Proof.
  intros Hl1 Hx. unfold cargar_tareas. cbn [disco].
  rewrite (cargar_lista_app l1 (x :: l2) cargadas Hl1). cbn [cargar_lista].
  destruct x as [| | | | |c]; try done. by destruct (Hx c).
Qed.

Section Recarga.
Context (escribir : archivo -> json -> archivo).

(** X3.  A store that was loaded, then saved by a write that goes
    through: loading the written file, from whatever the process holds
    in memory at that moment, gives the same tasks and the same counter
    again. *)
Theorem recarga_estable (st st1 : estado) (ts0 : list tarea) (u0 : Z) :
  cargar_tareas st = Valor st1 ->
  escribir (disco st1) (json_de_tareas (tareas st1))
    = Contenido (json_de_tareas (tareas st1)) ->
  exists st2,
    cargar_tareas (Estado ts0 u0 (disco (guardar_tareas escribir st1))) = Valor st2 /\
    tareas st2 = tareas st1 /\ ultimo_id st2 = ultimo_id st1.
Proof.
  intros H Hok. apply cargar_tareas_Valor in H as (ts & -> & Hl).
  rewrite (cargar_del_archivo_guardado escribir ts0 u0 _ Hok). cbv zeta.
  cbn [tareas] in *.
  rewrite (normalizar_bien_formadas ts Hl). eexists. split; [reflexivity|]. done.
Qed.

End Recarga.

(** ** Single-task mutations *)

Lemma primera_ausente permitida f i (ts : list tarea) :
  Forall (fun t => id t <> i) ts -> primera permitida f i ts = None.
Proof.
  induction 1 as [|t ts Ht _ IH]; simpl; [done|].
  by rewrite decide_False, IH.
Qed.

Lemma primera_is_Some permitida f i (ts : list tarea) :
  is_Some (primera permitida f i ts) <->
  exists l1 t l2, ts = l1 ++ t :: l2 /\ Forall (fun x => id x <> i) l1 /\
                  id t = i /\ permitida t = true.
Proof.
  split.
  - intros [ts' H]. apply primera_Some in H as (l1 & t & l2 & -> & _ & ? & ? & ?).
    by exists l1, t, l2.
  - intros (l1 & t & l2 & -> & Hl1 & <- & Hp).
    rewrite primera_en by done. by rewrite Hp.
Qed.

(** Running a second loop on the result of a first one whose rewrite it
    overrides is running the second loop alone. *)
Lemma primera_absorbe permitida f g i (ts : list tarea) :
  (forall t, id (f t) = id t) ->
  (forall t, permitida (f t) = permitida t) ->
  (forall t, g (f t) = g t) ->
  primera permitida g i (default ts (primera permitida f i ts))
    = primera permitida g i ts.
Proof.
  intros Hid Hp Hg. induction ts as [|t ts IH]; simpl; [done|].
  case_decide as Ht.
  - destruct (permitida t) eqn:Hpt; simpl.
    + rewrite decide_True; [|by rewrite Hid]. by rewrite Hp, Hpt, Hg.
    + rewrite decide_True; [|done]. by rewrite Hpt.
  - destruct (primera permitida f i ts) as [ts'|] eqn:Hf; simpl in *.
    + rewrite decide_False; [|done]. by rewrite IH.
    + by rewrite decide_False.
Qed.

Section Mutaciones.
Context (escribir : archivo -> json -> archivo).

(** X4.  When no task carries the id, [completar_tarea],
    [marcar_incompleta] and [borrar_tarea] return [False] and hand back
    the store untouched: nothing is written. *)
Theorem id_ausente (i : Z) (m : string) (st : estado) :
  Forall (fun t => id t <> i) (tareas st) ->
  completar_tarea escribir i st = (false, st) /\
  marcar_incompleta escribir i m st = (false, st) /\
  borrar_tarea escribir i st = (false, st).
Proof.
  intros Hno. unfold completar_tarea, marcar_incompleta, borrar_tarea.
  rewrite completar_bucle_primera, incompleta_bucle_primera, borrar_bucle_primera.
  by rewrite !primera_ausente.
Qed.

Lemma fst_Some_true {A} (o : option A) (k : A -> estado) (st : estado) :
  fst (match o with Some x => (true, k x) | None => (false, st) end) = true
  <-> is_Some o.
Proof.
  destruct o; simpl; split; intros H.
  - by eexists.
  - done.
  - done.
  - by destruct H.
Qed.

(** X5.  [borrar_tarea] returns [True] exactly when some task carries
    the id.  [completar_tarea] and [marcar_incompleta] return [True]
    exactly when the first task carrying the id is not disabled. *)
Theorem exito_de_mutaciones (i : Z) (m : string) (st : estado) :
  let primera_habilitada :=
    exists l1 t l2, tareas st = l1 ++ t :: l2 /\
      Forall (fun x => id x <> i) l1 /\ id t = i /\ inhabilitada t = false in
  (fst (borrar_tarea escribir i st) = true <-> exists t, t ∈ tareas st /\ id t = i) /\
  (fst (completar_tarea escribir i st) = true <-> primera_habilitada) /\
  (fst (marcar_incompleta escribir i m st) = true <-> primera_habilitada).
Proof.
  cbv zeta. unfold completar_tarea, marcar_incompleta, borrar_tarea.
  rewrite completar_bucle_primera, incompleta_bucle_primera, borrar_bucle_primera.
  rewrite !fst_Some_true, !primera_is_Some.
  assert (Hneg : forall t, negb (inhabilitada t) = true <-> inhabilitada t = false)
    by (intros t; by destruct (inhabilitada t)).
  split; [|split].
  - split.
    + intros (l1 & t & l2 & -> & _ & Hid & _). exists t. split; [|done].
      apply elem_of_app. right. left.
    + intros (t & Hin & Hid).
      destruct (decide (Forall (fun x => id x <> i) (tareas st))) as [Hall|Hex].
      * rewrite Forall_forall in Hall. by destruct (Hall t Hin).
      * apply not_Forall_Exists in Hex; [|apply _].
        clear t Hin Hid. induction Hex as [x l Hx|x l Hex IH].
        -- exists [], x, l. repeat split; [constructor|]. simpl in Hx.
           by destruct (decide (id x = i)).
        -- destruct (decide (id x = i)) as [Hxi|Hxi].
           ++ exists [], x, l. repeat split; [constructor|done].
           ++ destruct IH as (l1 & t & l2 & -> & Hl1 & Hid & _).
              exists (x :: l1), t, l2. repeat split; [by constructor|done].
  - split; intros (l1 & t & l2 & ? & ? & ? & ?); exists l1, t, l2;
      repeat split; try done; by apply Hneg.
  - split; intros (l1 & t & l2 & ? & ? & ? & ?); exists l1, t, l2;
      repeat split; try done; by apply Hneg.
Qed.

Lemma tareas_tras_bucle (o : option (list tarea)) (st : estado) :
  tareas (snd (match o with
               | Some ts => (true, guardar_tareas escribir (con_tareas ts st))
               | None => (false, st)
               end)) = default (tareas st) o.
Proof. by destruct o. Qed.

Lemma fst_tras_bucle (o : option (list tarea)) (st : estado) :
  fst (match o with
       | Some ts => (true, guardar_tareas escribir (con_tareas ts st))
       | None => (false, st)
       end) = bool_decide (is_Some o).
Proof.
  destruct o; cbn [fst]; symmetry.
  - apply bool_decide_eq_true. by eexists.
  - apply bool_decide_eq_false. by intros [??].
Qed.

(** X6.  Of two calls among [completar_tarea] and [marcar_incompleta]
    on the same id, the second decides: it returns what it would have
    returned alone, and the tasks are those it would have left alone.
    In particular each call is idempotent, and the reason of the last
    [marcar_incompleta] is the one kept.  No uniqueness of ids is
    needed. *)
Theorem la_ultima_decide (i : Z) (m m' : string) (st : estado) :
  let igual (r1 r2 : bool * estado) :=
    fst r1 = fst r2 /\ tareas (snd r1) = tareas (snd r2) in
  igual (marcar_incompleta escribir i m (snd (completar_tarea escribir i st)))
        (marcar_incompleta escribir i m st) /\
  igual (completar_tarea escribir i (snd (marcar_incompleta escribir i m st)))
        (completar_tarea escribir i st) /\
  igual (completar_tarea escribir i (snd (completar_tarea escribir i st)))
        (completar_tarea escribir i st) /\
  igual (marcar_incompleta escribir i m' (snd (marcar_incompleta escribir i m st)))
        (marcar_incompleta escribir i m' st).
Proof.
  cbv zeta.
  assert (H : forall c1 m1 c2 m2,
    primera (fun t => negb (inhabilitada t)) (con_estado c2 m2) i
      (default (tareas st)
         (primera (fun t => negb (inhabilitada t)) (con_estado c1 m1) i (tareas st)))
    = primera (fun t => negb (inhabilitada t)) (con_estado c2 m2) i (tareas st)).
  { intros. by apply primera_absorbe. }
  unfold completar_tarea, marcar_incompleta.
  rewrite !completar_bucle_primera, !incompleta_bucle_primera.
  rewrite !fst_tras_bucle, !tareas_tras_bucle.
  assert (Hn : forall c1 m1 c2 m2,
    primera (fun t => negb (inhabilitada t)) (con_estado c2 m2) i (tareas st) = None ->
    primera (fun t => negb (inhabilitada t)) (con_estado c1 m1) i (tareas st) = None).
  { intros c1 m1 c2 m2 Hnone. apply eq_None_not_Some. intros Hs.
    apply primera_is_Some in Hs. apply (primera_is_Some _ (con_estado c2 m2)) in Hs.
    rewrite Hnone in Hs. by destruct Hs. }
  assert (Hd : forall c1 m1 c2 m2,
    default
      (default (tareas st)
         (primera (fun t => negb (inhabilitada t)) (con_estado c1 m1) i (tareas st)))
      (primera (fun t => negb (inhabilitada t)) (con_estado c2 m2) i (tareas st))
    = default (tareas st)
        (primera (fun t => negb (inhabilitada t)) (con_estado c2 m2) i (tareas st))).
  { intros c1 m1 c2 m2.
    destruct (primera _ (con_estado c2 m2) i (tareas st)) eqn:Hg; [done|].
    simpl. by rewrite (Hn c1 m1 c2 m2 Hg). }
  by rewrite !H, !Hd.
Qed.

(** X7.  Once [borrar_tarea] has returned [True] for an id, on the
    store it left [completar_tarea] and [marcar_incompleta] return
    [False] for that id and change nothing, and [borrar_tarea] returns
    [True] again without changing any task. *)
Theorem borrar_es_definitivo (i : Z) (m : string) (st : estado) :
  fst (borrar_tarea escribir i st) = true ->
  let st1 := snd (borrar_tarea escribir i st) in
  completar_tarea escribir i st1 = (false, st1) /\
  marcar_incompleta escribir i m st1 = (false, st1) /\
  fst (borrar_tarea escribir i st1) = true /\
  tareas (snd (borrar_tarea escribir i st1)) = tareas st1.
Proof.
  unfold borrar_tarea at 1 2. rewrite borrar_bucle_primera.
  destruct (primera _ _ i (tareas st)) as [ts|] eqn:Hp; [|done]. intros _.
  apply primera_Some in Hp as (l1 & t & l2 & _ & -> & Hl1 & <- & _).
  cbv zeta. cbn [snd].
  unfold completar_tarea, marcar_incompleta, borrar_tarea.
  rewrite completar_bucle_primera, incompleta_bucle_primera, borrar_bucle_primera.
  cbn [tareas guardar_tareas con_tareas].
  change (id t) with (id (con_inhabilitada true t)).
  rewrite !primera_en by done. simpl. done.
Qed.

End Mutaciones.

(** ** Lists, themes and the summary *)

Lemma filter_fmap_misma_lista (f : tarea -> tarea) (n : string) (ts : list tarea) :
  (forall t, lista_de (f t) = lista_de t) ->
  tareas_de_lista n (f <$> ts) = f <$> tareas_de_lista n ts.
Proof.
  intros Hf. unfold tareas_de_lista. induction ts as [|t ts IH]; [done|].
  rewrite fmap_cons, !filter_cons, Hf. case_decide; [by rewrite fmap_cons, IH|done].
Qed.

Lemma primer_tema_con_tema (te : string) (ts : list tarea) :
  primer_tema (con_tema te <$> ts) = if decide (ts = []) then "" else te.
Proof.
  destruct ts as [|t ts]; [done|]. rewrite decide_False by done.
  rewrite fmap_cons. simpl. case_decide as Hte; [|done].
  rewrite Hte. clear. induction ts as [|x ts IH]; [done|]. by rewrite fmap_cons.
Qed.

Lemma obtener_listas_mismas (st st' : estado) :
  lista_de <$> tareas st' = lista_de <$> tareas st ->
  obtener_listas st' = obtener_listas st.
Proof. unfold obtener_listas. by intros ->. Qed.

Lemma primer_tema_snoc (ts : list tarea) (t : tarea) :
  tema t = "" -> primer_tema (ts ++ [t]) = primer_tema ts.
Proof.
  intros Ht. induction ts as [|x ts IH]; simpl.
  - by rewrite decide_True.
  - by rewrite IH.
Qed.

Lemma length_filter_disjuntos {A} (P Q : A -> Prop)
  `{!forall x, Decision (P x), !forall x, Decision (Q x)} (l : list A) :
  (forall x, P x -> Q x -> False) ->
  length (filter (fun x => P x \/ Q x) l) =
    (length (filter P l) + length (filter Q l))%nat.
Proof.
  intros Hd. induction l as [|x l IH]; [done|]. rewrite !filter_cons.
  destruct (decide (P x)) as [HP|HP], (decide (Q x)) as [HQ|HQ].
  - by destruct (Hd x).
  - rewrite decide_True by tauto. simpl. lia.
  - rewrite decide_True by tauto. simpl. lia.
  - rewrite decide_False by tauto. done.
Qed.

Lemma filter_ext_en {A} (P Q : A -> Prop)
  `{!forall x, Decision (P x), !forall x, Decision (Q x)} (l : list A) :
  Forall (fun x => P x <-> Q x) l -> filter P l = filter Q l.
Proof.
  induction 1 as [|x l Hx _ IH]; [done|]. rewrite !filter_cons, IH.
  destruct (decide (P x)) as [HP|HP].
  - by rewrite decide_True by tauto.
  - by rewrite decide_False by tauto.
Qed.

(** Summing a filtered count over a duplicate-free list of names counts
    the tasks that are in one of those lists. *)
Lemma suma_por_listas (Q : tarea -> Prop) `{!forall t, Decision (Q t)}
  (nombres : list string) (ts : list tarea) :
  NoDup nombres ->
  sum_list_with (fun n => length (filter Q (tareas_de_lista n ts))) nombres =
    length (filter (fun t => Q t /\ lista_de t ∈ nombres) ts).
Proof.
  induction 1 as [|n nombres Hn Hnd IH]; simpl.
  - symmetry. rewrite filter_vacio; [done|].
    apply Forall_forall. intros t _ [_ Hin]. by apply not_elem_of_nil in Hin.
  - rewrite IH. unfold tareas_de_lista. rewrite list_filter_filter.
    rewrite <- length_filter_disjuntos.
    + f_equal. apply list_filter_iff. intros t. rewrite elem_of_cons. split.
      * intros [[HQ Hl]|[HQ Hin]]; auto.
      * intros [HQ [Hl|Hin]]; [left|right]; auto.
    + intros t [_ Hl] [_ Hin]. by rewrite Hl in Hin.
Qed.

Lemma lista_de_en_obtener_listas (st : estado) (t : tarea) :
  t ∈ tareas st -> lista_de t ∈ obtener_listas st.
Proof. intros Ht. apply obtener_listas_elem. right. by exists t. Qed.

Lemma obtener_listas_NoDup (st : estado) : NoDup (obtener_listas st).
Proof.
  unfold obtener_listas. cbv zeta. case_decide; [apply NoDup_singleton|apply sorted_NoDup].
Qed.

Lemma suma_del_resumen (Q : tarea -> Prop) `{!forall t, Decision (Q t)} (st : estado) :
  sum_list_with (fun n => length (filter Q (tareas_de_lista n (tareas st))))
    (obtener_listas st) = length (filter Q (tareas st)).
Proof.
  rewrite suma_por_listas by apply obtener_listas_NoDup. f_equal.
  apply filter_ext_en, Forall_forall. intros t Ht. split; [tauto|].
  intros HQ. split; [done|]. by apply lista_de_en_obtener_listas.
Qed.

Lemma sum_list_with_fmap {A B} (f : B -> nat) (g : A -> B) (l : list A) :
  sum_list_with f (g <$> l) = sum_list_with (fun x => f (g x)) l.
Proof. induction l as [|x l IH]; [done|]. rewrite fmap_cons. simpl. by rewrite IH. Qed.

Lemma filter_todos {A} (l : list A) : filter (fun _ => True) l = l.
Proof. induction l as [|x l IH]; [done|]. by rewrite filter_cons_True, IH. Qed.

(** X9.  The summary accounts for every task once: the [total]s of
    its entries add up to the number of tasks, the [activas] to the
    number of tasks that are not disabled, and the [completadas] to the
    number of completed tasks. *)
Theorem totales_del_resumen (st : estado) :
  sum_list_with r_total (construir_resumen_listas st) = length (tareas st) /\
  sum_list_with r_activas (construir_resumen_listas st) =
    length (filter (fun t => inhabilitada t = false) (tareas st)) /\
  sum_list_with r_completadas (construir_resumen_listas st) =
    length (filter (fun t => completada t = true) (tareas st)).
Proof.
  unfold construir_resumen_listas. rewrite !sum_list_with_fmap.
  cbn [resumen_de r_total r_activas r_completadas].
  split; [|split].
  - etrans; [|etrans; [apply (suma_del_resumen (fun _ => True) st)|by rewrite filter_todos]].
    induction (obtener_listas st) as [|n l IH]; [done|].
    simpl. by rewrite IH, filter_todos.
  - apply (suma_del_resumen (fun t => inhabilitada t = false)).
  - apply (suma_del_resumen (fun t => completada t = true)).
Qed.

Lemma length_filter_fmap {A B} (P : B -> Prop) `{!forall x, Decision (P x)}
  (f : A -> B) (l : list A) :
  length (filter P (f <$> l)) = length (filter (fun x => P (f x)) l).
Proof.
  induction l as [|x l IH]; [done|]. rewrite fmap_cons, !filter_cons.
  destruct (decide (P (f x))); simpl; by rewrite IH.
Qed.

Lemma tareas_de_lista_app (n : string) (l1 l2 : list tarea) :
  tareas_de_lista n (l1 ++ l2) = tareas_de_lista n l1 ++ tareas_de_lista n l2.
Proof. apply filter_app. Qed.

Section ListasYTemas.
Context (escribir : archivo -> json -> archivo).

(** X8.  After [actualizar_tema_lista] the theme read for the list is
    the trimmed form value when the list has tasks, and stays empty
    when it has none; every task of the list carries that value; the
    tasks and themes of the other lists, the list names and the counter
    are as before. *)
Theorem tema_puesto_y_leido (nombre : string) (req : request) (st : estado) :
  let nuevo_tema := strip (get (form req) "tema" "") in
  let st' := snd (actualizar_tema_lista escribir nombre req st) in
  obtener_tema_lista nombre st' =
    (if decide (tareas_de_lista nombre (tareas st) = []) then "" else nuevo_tema) /\
  Forall (fun t => tema t = nuevo_tema) (tareas_de_lista nombre (tareas st')) /\
  (forall otra, otra <> nombre ->
     tareas_de_lista otra (tareas st') = tareas_de_lista otra (tareas st) /\
     obtener_tema_lista otra st' = obtener_tema_lista otra st) /\
  obtener_listas st' = obtener_listas st /\
  length (tareas st') = length (tareas st) /\
  ultimo_id st' = ultimo_id st.
Proof.
  intros nuevo_tema st'. subst st'. unfold actualizar_tema_lista. fold nuevo_tema.
  unfold guardar_tareas, con_tareas. cbn [snd tareas ultimo_id].
  set (f := fun t => if decide (lista_de t = nombre) then con_tema nuevo_tema t else t).
  assert (Hf : forall t, lista_de (f t) = lista_de t).
  { intros t. unfold f. by case_decide. }
  assert (Hmisma : tareas_de_lista nombre (f <$> tareas st) =
                   con_tema nuevo_tema <$> tareas_de_lista nombre (tareas st)).
  { rewrite filter_fmap_misma_lista by done. apply Forall_fmap_ext_1, Forall_forall.
    intros t [Hl _]%list_elem_of_filter. unfold f. by rewrite decide_True. }
  assert (Hotra : forall otra, otra <> nombre ->
            tareas_de_lista otra (f <$> tareas st) = tareas_de_lista otra (tareas st)).
  { intros otra Hne. rewrite filter_fmap_misma_lista by done.
    rewrite <- (list_fmap_id (tareas_de_lista otra (tareas st))) at 2.
    apply Forall_fmap_ext_1, Forall_forall.
    intros t [Hl _]%list_elem_of_filter. unfold f. rewrite decide_False; [done|].
    by rewrite Hl. }
  split; [|split; [|split; [|split; [|split]]]].
  - unfold obtener_tema_lista. cbn [tareas]. rewrite Hmisma. apply primer_tema_con_tema.
  - rewrite Hmisma. apply Forall_fmap, Forall_forall. by intros t _.
  - intros otra Hne. unfold obtener_tema_lista. cbn [tareas]. by rewrite (Hotra otra Hne).
  - apply obtener_listas_mismas. cbn [tareas]. rewrite <- list_fmap_compose.
    apply list_fmap_ext. intros k t _. apply Hf.
  - apply length_fmap.
  - done.
Qed.

(** X10.  After [eliminar_lista] on a name other than ["general"] the
    list names are the earlier ones without that name, and the summary
    entry of every other name is the one it had. *)
Theorem nombres_tras_eliminar (nombre : string) (st : estado) :
  nombre <> "general" ->
  let st' := snd (eliminar_lista escribir nombre st) in
  (forall n, n ∈ obtener_listas st' <-> n ∈ obtener_listas st /\ n <> nombre) /\
  (forall n, n <> nombre -> resumen_de (tareas st') n = resumen_de (tareas st) n).
Proof.
  intros Hne. unfold eliminar_lista. rewrite decide_False by done.
  unfold guardar_tareas, con_tareas. cbn [snd tareas]. split.
  - intros n. rewrite !obtener_listas_elem. cbn [tareas]. split.
    + intros [->|(t & [Hl Ht]%list_elem_of_filter & <-)].
      * split; [by left|]. by intros <-.
      * split; [right; by exists t|done].
    + intros [[->|(t & Ht & <-)] Hn]; [by left|].
      right. exists t. split; [by apply list_elem_of_filter|done].
  - intros n Hn. unfold resumen_de.
    assert (Heq : tareas_de_lista n (filter (fun t => lista_de t <> nombre) (tareas st))
                  = tareas_de_lista n (tareas st)).
    { unfold tareas_de_lista. rewrite list_filter_filter. apply list_filter_iff.
      intros t. split; [tauto|]. intros Hl. split; [done|]. by rewrite Hl. }
    by rewrite Heq.
Qed.

(** X11.  A rename that takes effect merges the old list into the new
    one: the new list has as many tasks as both had together, lists
    with other names read as before, and the names afterwards are
    ["general"], the earlier names of tasks other than the old one, and
    the new name if the old list had a task. *)
Theorem renombrar_fusiona (viejo : string) (req : request) (st : estado) :
  let nuevo := strip (get (form req) "nuevo_nombre" "") in
  let st' := snd (renombrar_lista escribir viejo req st) in
  nuevo <> "" -> nuevo <> viejo ->
  length (tareas_de_lista nuevo (tareas st')) =
    (length (tareas_de_lista nuevo (tareas st)) +
     length (tareas_de_lista viejo (tareas st)))%nat /\
  (forall n, n <> viejo -> n <> nuevo ->
     tareas_de_lista n (tareas st') = tareas_de_lista n (tareas st)) /\
  (forall n, n ∈ obtener_listas st' <->
     n = "general" \/
     (n <> viejo /\ exists t, t ∈ tareas st /\ lista_de t = n) \/
     (n = nuevo /\ exists t, t ∈ tareas st /\ lista_de t = viejo)).
Proof.
  intros nuevo st' Hvac Hdif. subst st'. unfold renombrar_lista. fold nuevo.
  rewrite decide_False by tauto.
  unfold guardar_tareas, con_tareas. cbn [snd tareas].
  set (f := fun t => if decide (lista_de t = viejo) then con_lista nuevo t else t).
  assert (Hnuevo : forall t, lista_de (con_lista nuevo t) = nuevo).
  { intros t. unfold lista_de, str_or. simpl. by rewrite decide_False. }
  assert (Hf : forall t, lista_de (f t) = if decide (lista_de t = viejo) then nuevo else lista_de t).
  { intros t. unfold f. case_decide; [apply Hnuevo|done]. }
  split; [|split].
  - unfold tareas_de_lista. rewrite length_filter_fmap.
    rewrite <- length_filter_disjuntos.
    + f_equal. apply list_filter_iff. intros t. rewrite Hf.
      case_decide as Hv; [|tauto]. split; [by right|]. done.
    + intros t H1 H2. apply Hdif. by rewrite <- H1, <- H2.
  - intros n Hn1 Hn2. unfold tareas_de_lista.
    induction (tareas st) as [|t ts IH]; [done|].
    rewrite fmap_cons, !filter_cons, Hf, IH.
    destruct (decide (lista_de t = viejo)) as [Hv|Hv].
    + rewrite decide_False by (intros E; by apply Hn2).
      rewrite decide_False; [done|]. by rewrite Hv.
    + unfold f. by rewrite (decide_False (P := lista_de t = viejo)).
  - intros n. rewrite obtener_listas_elem. cbn [tareas]. split.
    + intros [->|(t' & (t & -> & Ht)%list_elem_of_fmap & <-)]; [by left|].
      rewrite Hf. destruct (decide (lista_de t = viejo)) as [Hv|Hv].
      * right. right. split; [done|]. by exists t.
      * right. left. split; [done|]. by exists t.
    + intros [->|[[Hn (t & Ht & <-)]|[-> (t & Ht & Hv)]]]; [by left| |].
      * right. exists (f t). split; [by apply list_elem_of_fmap_2|].
        rewrite Hf. by rewrite decide_False.
      * right. exists (f t). split; [by apply list_elem_of_fmap_2|].
        rewrite Hf. by rewrite decide_True.
Qed.

(** X15.  When [ruta_agregar_tarea] receives non-blank text, the new
    task, not completed, not disabled, without reason or theme, comes
    last in the list named by the [lista] argument (["general"] when
    that is empty or absent); the other lists read as before, the theme
    read for every list is unchanged, the list names gain at most that
    name, and the counter grows by one. *)
Theorem agregar_en_su_lista (req : request) (st : estado) :
  let recortado := strip (get (form req) "texto" "") in
  let destino := str_or (get (args req) "lista" "general") "general" in
  let st' := snd (ruta_agregar_tarea escribir req st) in
  recortado <> "" ->
  tareas_de_lista destino (tareas st') =
    tareas_de_lista destino (tareas st) ++
      [Tarea (ultimo_id st + 1) recortado false "" false destino ""] /\
  (forall otra, otra <> destino ->
     tareas_de_lista otra (tareas st') = tareas_de_lista otra (tareas st)) /\
  (forall n, obtener_tema_lista n st' = obtener_tema_lista n st) /\
  (forall n, n ∈ obtener_listas st' <-> n = destino \/ n ∈ obtener_listas st) /\
  ultimo_id st' = ultimo_id st + 1.
Proof.
  intros recortado destino st' Hne. subst st'. unfold ruta_agregar_tarea.
  fold recortado. rewrite decide_False by done.
  unfold agregar_tarea, guardar_tareas. cbn [snd tareas ultimo_id]. fold destino.
  set (t := Tarea _ _ _ _ _ _ _).
  assert (Hd : destino <> "").
  { unfold destino, str_or. by case_decide. }
  assert (Hlt : lista_de t = destino).
  { unfold lista_de, str_or. simpl. by rewrite decide_False. }
  split; [|split; [|split; [|split]]].
  - rewrite tareas_de_lista_app. f_equal. unfold tareas_de_lista.
    by rewrite filter_cons_True.
  - intros otra Hotra. rewrite tareas_de_lista_app. unfold tareas_de_lista at 2.
    rewrite filter_cons_False by (by rewrite Hlt). by rewrite app_nil_r.
  - intros n. unfold obtener_tema_lista. cbn [tareas]. rewrite tareas_de_lista_app.
    unfold tareas_de_lista at 2. rewrite filter_cons.
    case_decide; [by apply primer_tema_snoc|by rewrite app_nil_r].
  - intros n. rewrite !obtener_listas_elem. cbn [tareas].
    setoid_rewrite elem_of_app. setoid_rewrite list_elem_of_singleton. split.
    + intros [->|(x & [Hx| ->] & <-)]; [right; by left| |by left].
      right. right. by exists x.
    + intros [->|[->|(x & Hx & <-)]]; [|by left|].
      * right. exists t. split; [by right|done].
      * right. exists x. split; [by left|done].
  - done.
Qed.

(** X12.  No task is ever read as belonging to the list with the empty
    name: with an empty [lista] argument [vista_tareas] shows no task
    and no theme, although [ruta_agregar_tarea] with that argument
    redirects there after filing the task under ["general"]. *)
Theorem lista_sin_nombre (req : request) (st : estado) :
  get (args req) "lista" "general" = "" ->
  fst (vista_tareas req st) = RenderIndex [] "" (obtener_listas st) "" /\
  ("" ∉ obtener_listas st) /\
  fst (ruta_agregar_tarea escribir req st) = Redirect "vista_tareas" (Some "") /\
  (forall t, t ∈ tareas (snd (ruta_agregar_tarea escribir req st)) ->
     t ∈ tareas st \/ lista t = "general").
Proof.
  intros Hl.
  assert (Hvac : forall ts, tareas_de_lista "" ts = []).
  { intros ts. apply filter_vacio, Forall_forall. intros t _. apply lista_de_no_vacia. }
  split; [|split; [|split]].
  - unfold vista_tareas, obtener_tema_lista. rewrite Hl. cbn [fst]. by rewrite Hvac.
  - intros Hin. apply obtener_listas_elem in Hin as [?|(t & _ & Ht)]; [done|].
    by apply lista_de_no_vacia in Ht.
  - unfold ruta_agregar_tarea. by rewrite Hl.
  - intros t. unfold ruta_agregar_tarea. rewrite Hl. cbn [snd].
    case_decide; [by left|]. simpl.
    rewrite elem_of_app, list_elem_of_singleton. intros [?| ->]; [by left|by right].
Qed.

End ListasYTemas.

(** ** Runs of requests *)

Lemma desciende_refl (t : tarea) : desciende t t.
Proof. by repeat split. Qed.

Lemma desciende_trans (t1 t2 t3 : tarea) :
  desciende t1 t2 -> desciende t2 t3 -> desciende t1 t3.
Proof.
  intros (Hi1 & Ht1 & Hd1) (Hi2 & Ht2 & Hd2).
  split; [congruence|]. split; [congruence|auto].
Qed.

Lemma primera_desciende permitida f i (ts ts' : list tarea) :
  (forall t, desciende t (f t)) ->
  default ts (primera permitida f i ts) = ts' ->
  forall t', t' ∈ ts' -> exists t, t ∈ ts /\ desciende t t'.
Proof.
  intros Hf Hts' t' Ht'. destruct (primera permitida f i ts) as [r|] eqn:Hp; simpl in Hts'.
  - subst r. apply primera_Some in Hp as (l1 & t & l2 & -> & -> & _).
    rewrite elem_of_app, elem_of_cons in Ht'. destruct Ht' as [Hin|[->|Hin]].
    + exists t'. split; [|apply desciende_refl]. apply elem_of_app. by left.
    + exists t. split; [|apply Hf]. apply elem_of_app. right. left.
    + exists t'. split; [|apply desciende_refl]. apply elem_of_app. right. by right.
  - subst ts'. exists t'. split; [done|apply desciende_refl].
Qed.

Lemma fmap_desciende (f : tarea -> tarea) (ts : list tarea) :
  (forall t, desciende t (f t)) ->
  forall t', t' ∈ f <$> ts -> exists t, t ∈ ts /\ desciende t t'.
Proof.
  intros Hf t' (t & -> & Ht)%list_elem_of_fmap. exists t. split; [done|apply Hf].
Qed.

Section Peticiones.
Context (escribir : archivo -> json -> archivo).

Lemma atender_bien_formado r req st :
  bien_formado st -> bien_formado (snd (atender escribir r req st)).
Proof.
  intros Hbf. destruct r; cbn [atender]; try done.
  - unfold ruta_agregar_tarea. cbn [snd]. case_decide; [done|].
    by apply agregar_tarea_bien_formado.
  - by apply completar_tarea_bien_formado.
  - by apply marcar_incompleta_bien_formado.
  - by apply borrar_tarea_bien_formado.
  - by apply renombrar_lista_bien_formado.
  - by apply eliminar_lista_bien_formado.
  - by apply actualizar_tema_lista_bien_formado.
Qed.

(** X13.  Whatever requests are served, in whatever order, a store
    with pairwise distinct ids, none above the counter, and no empty
    [lista] stays such a store; and the store that [create_app] builds
    when the file is missing or unreadable is one. *)
Theorem servir_bien_formado (peticiones : list (ruta * request)) :
  (forall st, bien_formado st -> bien_formado (servir escribir peticiones st)) /\
  (forall d, d = NoExiste \/ d = Ilegible ->
     exists st0, create_app d = Valor st0 /\
                 bien_formado (servir escribir peticiones st0)).
Proof.
  assert (H : forall st, bien_formado st -> bien_formado (servir escribir peticiones st)).
  { induction peticiones as [|[r req] resto IH]; intros st Hbf; [done|].
    cbn [servir]. by apply IH, atender_bien_formado. }
  split; [exact H|]. intros d Hd. exists (Estado [] 0 d). split.
  - unfold create_app, cargar_tareas. by destruct Hd as [-> | ->].
  - apply H, bien_formado_inicial.
Qed.

(** One request: the counter does not go down, and each task of the
    result is an earlier task, with its id and text, or the one task
    just created. *)
Lemma atender_desciende r req st :
  let st' := snd (atender escribir r req st) in
  ultimo_id st <= ultimo_id st' /\
  forall t', t' ∈ tareas st' ->
    (exists t, t ∈ tareas st /\ desciende t t') \/
    (id t' = ultimo_id st + 1 /\ ultimo_id st' = ultimo_id st + 1 /\ texto t' <> "").
Proof.
  assert (Hmismo : ultimo_id st <= ultimo_id st /\
    forall t', t' ∈ tareas st ->
      (exists t, t ∈ tareas st /\ desciende t t') \/
      (id t' = ultimo_id st + 1 /\ ultimo_id st = ultimo_id st + 1 /\ texto t' <> "")).
  { split; [lia|]. intros t' Ht'. left. exists t'. split; [done|apply desciende_refl]. }
  assert (Hbucle : forall o,
    (forall t', t' ∈ default (tareas st) o -> exists t, t ∈ tareas st /\ desciende t t') ->
    let st' := snd (match o with
                    | Some ts => (true, guardar_tareas escribir (con_tareas ts st))
                    | None => (false, st)
                    end) in
    ultimo_id st <= ultimo_id st' /\
    forall t', t' ∈ tareas st' ->
      (exists t, t ∈ tareas st /\ desciende t t') \/
      (id t' = ultimo_id st + 1 /\ ultimo_id st' = ultimo_id st + 1 /\ texto t' <> "")).
  { intros o Ho. cbv zeta. rewrite tareas_tras_bucle. split; [by destruct o; simpl; lia|].
    intros t' Ht'. left. by apply Ho. }
  cbv zeta. destruct r; cbn [atender]; try exact Hmismo.
  - unfold ruta_agregar_tarea. cbn [snd]. case_decide as Hv; [exact Hmismo|].
    simpl. split; [lia|]. intros t'.
    rewrite elem_of_app, list_elem_of_singleton. intros [Ht'| ->].
    + left. exists t'. split; [done|apply desciende_refl].
    + right. by repeat split.
  - unfold ruta_completar_tarea, completar_tarea. cbn [snd].
    apply Hbucle. rewrite completar_bucle_primera.
    eapply primera_desciende; [|done]. intros t. by repeat split.
  - unfold ruta_marcar_incompleta, marcar_incompleta. cbn [snd].
    apply Hbucle. rewrite incompleta_bucle_primera.
    eapply primera_desciende; [|done]. intros t. by repeat split.
  - unfold ruta_borrar_tarea, borrar_tarea. cbn [snd].
    apply Hbucle. rewrite borrar_bucle_primera.
    eapply primera_desciende; [|done]. intros t. by repeat split.
  - unfold renombrar_lista. case_decide; [exact Hmismo|].
    unfold guardar_tareas, con_tareas. cbn [snd tareas ultimo_id]. split; [lia|].
    intros t' Ht'. left. revert t' Ht'. apply fmap_desciende.
    intros t. case_decide; by repeat split.
  - unfold eliminar_lista. case_decide; [exact Hmismo|].
    unfold guardar_tareas, con_tareas. cbn [snd tareas ultimo_id]. split; [lia|].
    intros t' [_ Ht']%list_elem_of_filter. left. exists t'.
    split; [done|apply desciende_refl].
  - unfold actualizar_tema_lista.
    unfold guardar_tareas, con_tareas. cbn [snd tareas ultimo_id]. split; [lia|].
    intros t' Ht'. left. revert t' Ht'. apply fmap_desciende.
    intros t. case_decide; by repeat split.
Qed.

(** X14.  Over any run of requests the counter never goes down, and
    every task of the final store either is a task of the initial one
    with the same id and the same text, still disabled if it was, or
    was created during the run, with a non-blank text and an id above
    the initial counter and up to the final one.  So no request edits
    a text or an id, re-enables a task, or hands out an id at or below
    the counter, also after lists were deleted. *)
Theorem servir_desciende (peticiones : list (ruta * request)) (st : estado) :
  let st' := servir escribir peticiones st in
  ultimo_id st <= ultimo_id st' /\
  forall t', t' ∈ tareas st' ->
    (exists t, t ∈ tareas st /\ desciende t t') \/
    (ultimo_id st < id t' <= ultimo_id st' /\ texto t' <> "").
Proof.
  cbv zeta. revert st. induction peticiones as [|[r req] resto IH]; intros st.
  - simpl. split; [lia|]. intros t' Ht'. left. exists t'.
    split; [done|apply desciende_refl].
  - cbn [servir]. destruct (atender_desciende r req st) as [Hu1 H1].
    destruct (IH (snd (atender escribir r req st))) as [Hu2 H2].
    split; [lia|]. intros t' Ht'.
    destruct (H2 t' Ht') as [(t1 & Ht1 & Hd)|[Hrango Htx]].
    + destruct (H1 t1 Ht1) as [(t & Ht & Hd0)|(Hid & Hu & Htx)].
      * left. exists t. split; [done|by eapply desciende_trans].
      * right. destruct Hd as (Hid' & Htx' & _). rewrite Hid', Htx', Hid.
        split; [lia|done].
    + right. split; [lia|done].
Qed.

End Peticiones.

(** ** Restarting, and what the file may hold *)

Lemma mismo_id_misma_tarea (ts : list tarea) (x t : tarea) :
  NoDup (id <$> ts) -> x ∈ ts -> t ∈ ts -> id x = id t -> x = t.
Proof.
  intros Hnd Hx Ht Hid.
  destruct (primera_con_id ts t Hnd Ht) as (l1 & l2 & -> & Hl1).
  rewrite fmap_app, fmap_cons in Hnd.
  apply NoDup_app in Hnd as (_ & _ & Hnd2). apply NoDup_cons in Hnd2 as [Hn2 _].
  rewrite elem_of_app, elem_of_cons in Hx. destruct Hx as [Hx|[->|Hx]]; [|done|].
  - rewrite Forall_forall in Hl1. by destruct (Hl1 x Hx).
  - destruct Hn2. rewrite <- Hid. by apply list_elem_of_fmap_2.
Qed.

Section Reinicio.
Context (escribir : archivo -> json -> archivo).

(** X16.  The counter is not stored: it is recomputed from the tasks
    that are left.  When the task holding the highest id is removed
    with its list, the removal is written, and the application
    restarts, the next task created receives an id that is not above
    the removed one. *)
Theorem reinicio_puede_repetir_id
  (nombre tx li : string) (t : tarea) (st : estado) :
  bien_formado st ->
  t ∈ tareas st -> id t = ultimo_id st -> 0 < id t ->
  lista_de t = nombre -> nombre <> "general" ->
  (let ts := filter (fun x => lista_de x <> nombre) (tareas st) in
   escribir (disco st) (json_de_tareas ts) = Contenido (json_de_tareas ts)) ->
  exists st2,
    cargar_tareas (snd (eliminar_lista escribir nombre st)) = Valor st2 /\
    tareas st2 = filter (fun x => lista_de x <> nombre) (tareas st) /\
    ultimo_id st2 < ultimo_id st /\
    id (fst (agregar_tarea escribir tx li st2)) <= id t.
Proof.
  intros (Hnd & Hcota & Hl) Ht Hid Hpos Hlt Hne Hok. cbv zeta in Hok.
  unfold eliminar_lista. rewrite decide_False by done. cbn [snd].
  set (ts := filter (fun x => lista_de x <> nombre) (tareas st)) in *.
  rewrite (cargar_lo_guardado escribir (con_tareas ts st) Hok). cbv zeta.
  cbn [con_tareas tareas].
  assert (Hlts : Forall (fun x => lista x <> "") ts).
  { apply Forall_forall. intros x [_ Hx]%list_elem_of_filter.
    rewrite Forall_forall in Hl. by apply Hl. }
  rewrite (normalizar_bien_formadas ts Hlts).
  assert (Hmax : max_id ts < ultimo_id st).
  { destruct (decide (ts = [])) as [->|Hts]; [simpl; lia|].
    destruct (max_id_alcanzado ts Hts) as (x & Hx & <-).
    apply list_elem_of_filter in Hx as [Hxl Hx].
    rewrite Forall_forall in Hcota. pose proof (Hcota x Hx) as Hle. simpl in Hle.
    destruct (decide (id x = id t)) as [Heq|Hneq]; [|lia].
    apply (mismo_id_misma_tarea _ _ _ Hnd Hx Ht) in Heq. subst x. done. }
  eexists. split; [reflexivity|]. cbn [tareas ultimo_id fst agregar_tarea id].
  split; [done|]. split; [done|]. lia.
Qed.

End Reinicio.

Lemma dict_get_filter (c : list (string * json)) (k : string) (d : json) :
  k ∈ claves ->
  dict_get (filter (fun kv => kv.1 ∈ claves) c) k d = dict_get c k d.
Proof.
  intros Hk. revert d. induction c as [|[k' v] c IH]; intros d; [done|].
  rewrite filter_cons. cbn [fst dict_get].
  destruct (decide (k' ∈ claves)) as [Hk'|Hk'].
  - cbn [dict_get]. case_decide; apply IH.
  - rewrite decide_False; [apply IH|]. by intros ->.
Qed.

(** X17.  Members of a task object under keys other than the seven
    the program knows play no part in loading: the object loads as it
    would without them. *)
Theorem cargar_tarea_ignora_otras_claves (c : list (string * json)) :
  cargar_tarea (JObj c) =
  cargar_tarea (JObj (filter (fun kv => kv.1 ∈ claves) c)).
Proof.
  unfold cargar_tarea.
  rewrite !dict_get_filter by (unfold claves; set_solver).
  done.
Qed.

(** ** The further properties at concrete stores *)

Lemma cargar_tareas_normaliza_testigo :
  let st := Estado [] 0 (Contenido (JArr [JObj [("id", JInt 7); ("lista", JStr "")]])) in
  let st' := Estado [Tarea 7 "" false "" false "general" ""] 7 (disco st) in
  cargar_tareas st = Valor st' /\
  Forall (fun t => lista t <> "" /\ lista_de t = lista t) (tareas st') /\
  ultimo_id st' = max_id (tareas st').
Proof.
  intros st st'. assert (H : cargar_tareas st = Valor st') by reflexivity.
  split; [exact H|].
  destruct (cargar_tareas_normaliza st st' H) as (_ & Hl & Hm & _).
  split; [exact Hl|exact Hm].
Defined.

Lemma cargar_tareas_elemento_no_objeto_testigo :
  cargar_lista [JObj [("id", JInt 1)]] = Valor [Tarea 1 "" false "" false "general" ""] /\
  (forall c, JInt 5 <> JObj c) /\
  cargar_tareas (Estado [] 0 (Contenido (JArr ([JObj [("id", JInt 1)]] ++ JInt 5 :: []))))
    = Excepcion AttributeError.
Proof.
  assert (H1 : cargar_lista [JObj [("id", JInt 1)]]
               = Valor [Tarea 1 "" false "" false "general" ""]) by reflexivity.
  assert (H2 : forall c, JInt 5 <> JObj c) by (intros c; discriminate).
  split; [exact H1|]. split; [exact H2|].
  exact (cargar_tareas_elemento_no_objeto [] 0 _ [] (JInt 5) _ H1 H2).
Defined.

Lemma recarga_estable_testigo :
  let st := Estado [] 0 (Contenido (JArr [JObj [("id", JInt 7); ("lista", JStr "")]])) in
  let st1 := Estado [Tarea 7 "" false "" false "general" ""] 7 (disco st) in
  let ts0 := [Tarea 9 "otra" true "x" true "casa" "t"] in
  cargar_tareas st = Valor st1 /\
  disco_fiable (disco st1) (json_de_tareas (tareas st1))
    = Contenido (json_de_tareas (tareas st1)) /\
  exists st2,
    cargar_tareas (Estado ts0 42 (disco (guardar_tareas disco_fiable st1))) = Valor st2 /\
    tareas st2 = tareas st1 /\ ultimo_id st2 = ultimo_id st1.
Proof.
  intros st st1 ts0. assert (H : cargar_tareas st = Valor st1) by reflexivity.
  split; [exact H|]. split; [reflexivity|].
  exact (recarga_estable disco_fiable st st1 ts0 42 H eq_refl).
Defined.

Lemma id_ausente_testigo :
  Forall (fun t => id t <> 9) (tareas st_ej) /\
  completar_tarea disco_fiable 9 st_ej = (false, st_ej) /\
  marcar_incompleta disco_fiable 9 "x" st_ej = (false, st_ej) /\
  borrar_tarea disco_fiable 9 st_ej = (false, st_ej).
Proof.
  assert (H : Forall (fun t => id t <> 9) (tareas st_ej)).
  { repeat (apply Forall_cons_2; [simpl; lia|]). apply Forall_nil_2. }
  split; [exact H|]. exact (id_ausente disco_fiable 9 "x" st_ej H).
Defined.

Lemma borrar_es_definitivo_testigo :
  fst (borrar_tarea disco_fiable 1 st_ej) = true /\
  completar_tarea disco_fiable 1 (snd (borrar_tarea disco_fiable 1 st_ej))
    = (false, snd (borrar_tarea disco_fiable 1 st_ej)).
Proof.
  split; [reflexivity|].
  exact (proj1 (borrar_es_definitivo disco_fiable 1 "" st_ej eq_refl)).
Defined.

Lemma nombres_tras_eliminar_testigo :
  "work" <> "general" /\
  ("work" ∉ obtener_listas (snd (eliminar_lista disco_fiable "work" st_ej))).
Proof.
  assert (Hne : "work" <> "general") by discriminate.
  split; [exact Hne|]. intros Hin.
  apply (proj1 (nombres_tras_eliminar disco_fiable "work" st_ej Hne) "work") in Hin.
  by destruct Hin as [_ ?].
Defined.

Lemma renombrar_fusiona_testigo :
  let req := Request {["nuevo_nombre" := "general"]} ∅ in
  strip (get (form req) "nuevo_nombre" "") <> "" /\
  strip (get (form req) "nuevo_nombre" "") <> "work" /\
  length (tareas_de_lista (strip (get (form req) "nuevo_nombre" ""))
            (tareas (snd (renombrar_lista disco_fiable "work" req st_ej)))) =
    (length (tareas_de_lista (strip (get (form req) "nuevo_nombre" "")) (tareas st_ej)) +
     length (tareas_de_lista "work" (tareas st_ej)))%nat.
Proof.
  intros req.
  assert (H1 : strip (get (form req) "nuevo_nombre" "") <> "") by (vm_compute; discriminate).
  assert (H2 : strip (get (form req) "nuevo_nombre" "") <> "work") by (vm_compute; discriminate).
  split; [exact H1|]. split; [exact H2|].
  exact (proj1 (renombrar_fusiona disco_fiable "work" req st_ej H1 H2)).
Defined.

Lemma lista_sin_nombre_testigo :
  let req := Request {["texto" := "pan"]} {["lista" := ""]} in
  get (args req) "lista" "general" = "" /\
  fst (vista_tareas req st_ej) = RenderIndex [] "" (obtener_listas st_ej) "" /\
  fst (ruta_agregar_tarea disco_fiable req st_ej) = Redirect "vista_tareas" (Some "").
Proof.
  intros req. assert (H : get (args req) "lista" "general" = "") by (vm_compute; reflexivity).
  split; [exact H|].
  destruct (lista_sin_nombre disco_fiable req st_ej H) as (Hv & _ & Hr & _).
  split; [exact Hv|exact Hr].
Defined.

Lemma agregar_en_su_lista_testigo :
  let req := Request {["texto" := " pan "]} {["lista" := "work"]} in
  strip (get (form req) "texto" "") <> "" /\
  ultimo_id (snd (ruta_agregar_tarea disco_fiable req st_ej)) = ultimo_id st_ej + 1 /\
  forall n, obtener_tema_lista n (snd (ruta_agregar_tarea disco_fiable req st_ej))
            = obtener_tema_lista n st_ej.
Proof.
  intros req.
  assert (H : strip (get (form req) "texto" "") <> "") by (vm_compute; discriminate).
  split; [exact H|].
  destruct (agregar_en_su_lista disco_fiable req st_ej H) as (_ & _ & Ht & _ & Hu).
  split; [exact Hu|exact Ht].
Defined.

Lemma reinicio_puede_repetir_id_testigo :
  let t := Tarea 3 "llamar" true "" false "work" "Q1" in
  bien_formado st_ej /\ t ∈ tareas st_ej /\ id t = ultimo_id st_ej /\ 0 < id t /\
  lista_de t = "work" /\ "work" <> "general" /\
  exists st2,
    cargar_tareas (snd (eliminar_lista disco_fiable "work" st_ej)) = Valor st2 /\
    tareas st2 = filter (fun x => lista_de x <> "work") (tareas st_ej) /\
    ultimo_id st2 < ultimo_id st_ej /\
    id (fst (agregar_tarea disco_fiable "nueva" "work" st2)) <= id t.
Proof.
  intros t.
  assert (Hbf : bien_formado st_ej).
  { split; [compute_done|]. split.
    - repeat (apply Forall_cons_2; [simpl; lia|]). apply Forall_nil_2.
    - repeat (apply Forall_cons_2; [discriminate|]). apply Forall_nil_2. }
  assert (Hin : t ∈ tareas st_ej) by compute_done.
  assert (Hpos : 0 < id t) by (simpl; lia).
  assert (Hne : "work" <> "general") by discriminate.
  split; [exact Hbf|]. split; [exact Hin|]. split; [reflexivity|].
  split; [exact Hpos|]. split; [reflexivity|]. split; [exact Hne|].
  exact (reinicio_puede_repetir_id disco_fiable "work" "nueva" "work" t st_ej
           Hbf Hin eq_refl Hpos eq_refl Hne eq_refl).
Defined.
